(** * web-scraper: the scrape service, embedded and checked against its specification

    The development follows the two source files of the service:

    - the server module (browser session, usage counter, request handler),
    - [scraper.ts] (the five content extractors).

    External collaborators (the headless browser, the readability/DOM
    library, the file system, the clock) are not modelled: code that awaits
    them is written in a small free monad whose calls are answered by an
    arbitrary oracle, so every theorem holds for every behaviour of the
    environment.

    The counters are plain objects, so their reads go through
    [Object.prototype]. The model holds the own properties of the counters
    and follows the built-in objects as long as they are as the engine
    created them; a scrape that writes on one of them is marked, and what
    the counter statements do after that is left to the environment as
    well. *)

From Stdlib Require Import Ascii.
From stdpp Require Import gmap strings list fin_maps pretty.

Set Default Proof Using "Type".
Open Scope string_scope.

(** ** JavaScript strings and plain objects *)

(** The line feed of the template literals. *)
Definition nl : string := String "010"%char "".

(** A JavaScript string is truthy when it is not empty. *)
Definition truthy_str (s : string) : bool :=
  match s with "" => false | _ => true end.

(** A nullable string ([string | null]) is truthy when it is a non-empty
    string. *)
Definition truthy_ostr (o : option string) : bool :=
  match o with Some s => truthy_str s | None => false end.

Module Js.

(** The members every object literal [{}] inherits from
    [Object.prototype]. A read of such a key on an object that has no own
    property of that name yields the inherited built-in, not
    [undefined]. *)
Definition prototype_members : list string :=
  [ "constructor"; "__defineGetter__"; "__defineSetter__"; "hasOwnProperty";
    "__lookupGetter__"; "__lookupSetter__"; "isPrototypeOf";
    "propertyIsEnumerable"; "toString"; "valueOf"; "__proto__";
    "toLocaleString" ].

Definition inherited (k : string) : bool :=
  bool_decide (k ∈ prototype_members).

(** What [o[k]] evaluates to, for an object [o] created by [{}] whose own
    properties are the finite map [o]. *)
Inductive lookup_result (A : Type) : Type :=
  | Own (a : A)
  | Inherited
  | Undefined.
Arguments Own {A} a.
Arguments Inherited {A}.
Arguments Undefined {A}.

Definition get {A} (o : gmap string A) (k : string) : lookup_result A :=
  match o !! k with
  | Some a => Own a
  | None => if inherited k then Inherited else Undefined
  end.

(** [o[k] = v]. An assignment to [__proto__] of a value that is not an
    object goes to the accessor of [Object.prototype], which ignores it;
    every other key becomes (or updates) an own property. *)
Definition set {A} (k : string) (v : A) (o : gmap string A) : gmap string A :=
  if bool_decide (k = "__proto__") then
    match o !! k with Some _ => <[k := v]> o | None => o end
  else <[k := v]> o.

(** Numbers, as far as the counters need them: integers and NaN. *)
Inductive num : Type :=
  | Num (z : Z)
  | NaN.

#[export] Instance num_eq_dec : EqDecision num.
Proof. solve_decision. Defined.

(** [!v] is false exactly on truthy values: an inherited built-in is an
    object, hence truthy; [0], [NaN] and [undefined] are falsy. *)
Definition truthy_num (v : lookup_result num) : bool :=
  match v with
  | Own (Num z) => negb (z =? 0)%Z
  | Own NaN => false
  | Inherited => true
  | Undefined => false
  end.

(** ToNumeric of the value read by the postfix [++]: a built-in function
    or object converts to NaN, and so does [undefined]. *)
Definition to_numeric (v : lookup_result num) : num :=
  match v with
  | Own n => n
  | Inherited | Undefined => NaN
  end.

(** Numbers are doubles. [to_double x] is the double nearest to the integer
    [x]: [x] itself up to 2^53 in magnitude, beyond that [x] rounded to 53
    significant bits, a tie going to the even significand (magnitudes stay
    below 2^1024, where a double overflows). *)
Definition to_double (x : Z) : Z :=
  let a := Z.abs x in
  if (a <? 2 ^ 53)%Z then x
  else
    let e := (Z.log2 a - 52)%Z in
    let q := (a / 2 ^ e)%Z in
    let r := (a mod 2 ^ e)%Z in
    let half := (2 ^ (e - 1))%Z in
    let q' := if (half <? r)%Z || ((r =? half)%Z && Z.odd q) then (q + 1)%Z else q in
    (Z.sgn x * (q' * 2 ^ e))%Z.

(** The value the postfix [++] stores: the operand plus one, as a double. *)
Definition succ (n : num) : num :=
  match n with
  | Num z => Num (to_double (z + 1))
  | NaN => NaN
  end.

(** What becomes of the writes of [logScrape] when
    [scrapeStats[currentMonth][url]] is not an own property but a member
    inherited from [Object.prototype]: the object [Object.prototype] itself
    (for [__proto__]), the function [Object] (for [constructor]) or one of
    the ten built-in methods. The module is strict code, so a write that is
    refused throws. Either nothing is written and nothing is thrown
    ([Ignored]), or the count is written on the built-in object ([Lands]),
    or a TypeError is thrown before anything is written ([Refused]). *)
Inductive builtin_write : Type :=
  | Ignored
  | Lands
  | Refused.

(** [target[mode]] read, initialised if falsy, and incremented, where
    [target] is the built-in that [url] names.
    - [__proto__] reads the prototype of the target ([null] for
      [Object.prototype]) and its setter ignores a number.
    - On [Object.prototype] every other name is a writable data property or
      absent: the count lands there.
    - On a function, [length] and [name] are own properties that are not
      writable, the inherited accessors [caller] and [arguments] throw on
      every access, and [Object.prototype] is a read-only property of
      [Object]; every other name is absent or writable (own or inherited),
      and the count lands on the function. *)
Definition write_on_builtin (url mode : string) : builtin_write :=
  if String.eqb mode "__proto__" then Ignored
  else if String.eqb url "__proto__" then Lands
  else if bool_decide (mode ∈ ["length"; "name"; "caller"; "arguments"]) then Refused
  else if String.eqb url "constructor" && String.eqb mode "prototype" then Refused
  else Lands.

End Js.

(** ** Usage counter *)

(** [interface ScrapeStats]: month -> url -> mode -> count. The maps hold
    the own properties of the nested objects. *)
Abbreviation ModeCounts := (gmap string Js.num).
Abbreviation UrlCounts := (gmap string (gmap string Js.num)).
Abbreviation ScrapeStats := (gmap string (gmap string (gmap string Js.num))).

(** [new Date()], as far as [getCurrentMonth] reads it: [getFullYear()] and
    the zero-based [getMonth()]. *)
Record Date := { fullYear : nat; monthIndex : nat }.

(** [String(n).padStart(2, '0')] *)
Definition padStart2 (s : string) : string :=
  match String.length s with
  | 0 => "00"
  | 1 => "0" +:+ s
  | _ => s
  end.

Definition getCurrentMonth (date : Date) : string :=
  pretty (fullYear date) +:+ "-" +:+ padStart2 (pretty (monthIndex date + 1)).

(** The counters of one url after [logScrape]'s last two statements:
    [if (!o[mode]) o[mode] = 0; o[mode]++]. *)
Definition bump_mode (mode : string) (o : ModeCounts) : ModeCounts :=
  let o1 := if Js.truthy_num (Js.get o mode) then o else Js.set mode (Js.Num 0) o in
  Js.set mode (Js.succ (Js.to_numeric (Js.get o1 mode))) o1.

(** How the statements of [logScrape] before [await saveStats()] end:
    they complete and every write went to [scrapeStats] ([Recorded]); they
    complete, but the count was written on a built-in object ([Spilled]); or
    they throw a TypeError ([Raised]). Each carries the own properties of
    [scrapeStats] at that point. *)
Inductive Outcome : Type :=
  | Recorded (scrapeStats : ScrapeStats)
  | Spilled (scrapeStats : ScrapeStats)
  | Raised (scrapeStats : ScrapeStats).

(** The own properties of [scrapeStats] afterwards. *)
Definition stats_of (out : Outcome) : ScrapeStats :=
  match out with
  | Recorded st | Spilled st | Raised st => st
  end.

(** The statements of [logScrape] before [await saveStats()], run at the
    time [date] on the own properties of [scrapeStats], while
    [Object.prototype] and its members are as the engine created them.
    - The month key has a dash in it and names no inherited member: the
      month level is the own property, or is created.
    - [scrapeStats[currentMonth][url]] is an own property, or is created,
      unless [url] names an inherited member: that read is truthy, no level
      is created, and the remaining statements work on the built-in
      ([Js.write_on_builtin]).
    - On the object of a url, [bump_mode] is the last two statements. *)
Definition logScrape_sync (date : Date) (url mode : string) (scrapeStats : ScrapeStats)
  : Outcome :=
  let currentMonth := getCurrentMonth date in
  let byUrl : UrlCounts := default ∅ (scrapeStats !! currentMonth) in
  match Js.get byUrl url with
  | Js.Own byMode =>
      Recorded (<[currentMonth := <[url := bump_mode mode byMode]> byUrl]> scrapeStats)
  | Js.Undefined =>
      Recorded (<[currentMonth := <[url := bump_mode mode ∅]> byUrl]> scrapeStats)
  | Js.Inherited =>
      let scrapeStats := <[currentMonth := byUrl]> scrapeStats in
      match Js.write_on_builtin url mode with
      | Js.Ignored => Recorded scrapeStats
      | Js.Lands => Spilled scrapeStats
      | Js.Refused => Raised scrapeStats
      end
  end.

(** The count [/stats] shows for a triple: the own property, if any. *)
Definition count (scrapeStats : ScrapeStats) (month url mode : string) : option Js.num :=
  match scrapeStats !! month with
  | Some byUrl =>
    match byUrl !! url with
    | Some byMode => byMode !! mode
    | None => None
    end
  | None => None
  end.

(** The number a stored count stands for when [logScrape] reads it: a
    missing entry and NaN restart from 0. *)
Definition base (c : option Js.num) : Z :=
  match c with
  | Some (Js.Num z) => z
  | _ => 0
  end.

(** The scrapes of one month, [(url, mode)] pairs, recorded in order, as
    long as each completes and leaves the built-in objects alone. *)
Fixpoint log_all (date : Date) (scrapes : list (string * string)) (st : ScrapeStats)
  : option ScrapeStats :=
  match scrapes with
  | [] => Some st
  | s :: scrapes' =>
      match logScrape_sync date s.1 s.2 st with
      | Recorded st' => log_all date scrapes' st'
      | _ => None
      end
  end.

Definition occurrences (s : string * string) (scrapes : list (string * string)) : nat :=
  length (filter (λ s', s' = s) scrapes).

(** Every stored count is a positive integer. *)
Definition positive_counts (st : ScrapeStats) : Prop :=
  ∀ month url mode c, count st month url mode = Some c → ∃ z, c = Js.Num z ∧ (0 < z)%Z.

(** The scrapes all name plain keys. *)
Definition plain_scrapes (scrapes : list (string * string)) : Prop :=
  Forall (λ s, Js.inherited s.1 = false ∧ Js.inherited s.2 = false) scrapes.

(** The character of a decimal digit. *)
Definition decimal_digit (k : nat) : ascii := ascii_of_nat (48 + k).

Fixpoint has_dash (s : string) : bool :=
  match s with
  | "" => false
  | String c s' => if Ascii.eqb c "-" then true else has_dash s'
  end.

(** ** Programs that await the environment *)

Definition Error := string.

(** The error of a refused property write or read, and of destructuring
    [undefined] or [null]. *)
Definition TypeError : Error := "TypeError".

(** The outcome of an awaited promise, and of a program: a value, or a
    thrown error (a rejected promise). *)
Inductive result (A : Type) : Type :=
  | Ok (a : A)
  | Throw (e : Error).
Arguments Ok {A} a.
Arguments Throw {A} e.

(** Handles of the automation layer. *)
Definition Browser := nat.
Definition Page := nat.

(** A [<meta>] element, as the script of [extractEnhancedArticle] reads it:
    [getAttribute] yields a string or [null]. *)
Record MetaElement := {
  attr_name : option string;
  attr_property : option string;
  attr_content : option string
}.

(** The article of the readability pass. *)
Record Article := {
  title : string;
  byline : option string;
  textContent : string
}.

(** The reply sent to the client. *)
Inductive Payload : Type :=
  | ErrorBody (error : string)
  | ContentBody (content : string).

Record Response := { status : nat; payload : Payload }.

(** The asynchronous calls the service awaits; the index is the type of the
    value a fulfilled call yields. [GetBrowser] is [getBrowser()] as the
    handler sees it (its inside is the subject of [Session] below);
    [MetaElements] is the access of the evaluated script to
    [document.getElementsByTagName('meta')]; [Screenshot] yields the bytes
    of the PNG buffer; [WriteFile] carries the counter structure that
    [JSON.stringify] serialises. [CloseBrowser] is [browser.close()]: part
    of the automation layer, named so that its absence can be stated. *)
Inductive Call : Type → Type :=
  | GetBrowser : Call Browser
  | NewPage (browser : Browser) : Call Page
  | Goto (page : Page) (url : string) : Call unit
  | Content (page : Page) : Call string
  | MetaElements (page : Page) : Call (list MetaElement)
  | Screenshot (page : Page) : Call string
  | AddPrintStyle (page : Page) : Call unit
  | EmulateMediaType (page : Page) (media : string) : Call unit
  | OuterHTML (page : Page) : Call string
  | Mkdir : Call unit
  | WriteFile (data : ScrapeStats) : Call unit
  | ClosePage (page : Page) : Call unit
  | CloseBrowser (browser : Browser) : Call unit.

(** Synchronous effects: they are no suspension points. [Now] is
    [new Date()]. [Increment] is the statements of [logScrape] on the
    counters, up to [await saveStats()]; it yields the error if they throw.
    [SetPage] and [GetPage] are the handler's local variable [page], which
    its [finally] block reads. *)
Inductive Eff : Type → Type :=
  | Now : Eff Date
  | ReadStats : Eff ScrapeStats
  | Increment (date : Date) (url mode : string) : Eff (result unit)
  | SetPage (page : option Page) : Eff unit
  | GetPage : Eff (option Page)
  | Reply (r : Response) : Eff unit.

Inductive Prog (A : Type) : Type :=
  | Ret (r : result A)
  | Await {X : Type} (c : Call X) (k : result X → Prog A)
  | Sync {X : Type} (c : Eff X) (k : X → Prog A).
Arguments Ret {A} r.
Arguments Await {A X} c k.
Arguments Sync {A X} c k.

Definition ret {A} (a : A) : Prog A := Ret (Ok a).
Definition throw {A} (e : Error) : Prog A := Ret (Throw e).

(** Sequencing: a thrown error skips the rest. *)
Fixpoint bind {A B} (p : Prog A) (f : A → Prog B) : Prog B :=
  match p with
  | Ret (Ok a) => f a
  | Ret (Throw e) => Ret (Throw e)
  | Await c k => Await c (λ r, bind (k r) f)
  | Sync c k => Sync c (λ x, bind (k x) f)
  end.

#[export] Instance Prog_ret : MRet Prog := @ret.
#[export] Instance Prog_bind : MBind Prog := λ A B f p, bind p f.

(** [await c]: the value of a fulfilled call, the error of a rejected one. *)
Definition await {X} (c : Call X) : Prog X := Await c Ret.
Definition eff {X} (c : Eff X) : Prog X := Sync c ret.

(** A synchronous effect that may throw. *)
Definition attempt {X} (c : Eff (result X)) : Prog X := Sync c Ret.

(** [try { p } catch (error) { h error }] *)
Fixpoint try_catch {A} (p : Prog A) (h : Error → Prog A) : Prog A :=
  match p with
  | Ret (Ok a) => Ret (Ok a)
  | Ret (Throw e) => h e
  | Await c k => Await c (λ r, try_catch (k r) h)
  | Sync c k => Sync c (λ x, try_catch (k x) h)
  end.

(** [try { p } finally { f }]: [f] runs on both exits; an error of [f]
    replaces the outcome of [p]. *)
Fixpoint finally {A} (p : Prog A) (f : Prog unit) : Prog A :=
  match p with
  | Ret r => bind f (λ _, Ret r)
  | Await c k => Await c (λ r, finally (k r) f)
  | Sync c k => Sync c (λ x, finally (k x) f)
  end.

(** *** Running a program against an environment *)

Inductive Event : Type :=
  | EvCall {X : Type} (c : Call X) (r : result X)
  | EvReply (r : Response).

(** The state of the process: the own properties of [scrapeStats]; whether
    [Object.prototype] and its members are still as the engine created them
    ([pristine]); the handler's variable [page]; and what has happened. *)
Record World := {
  scrapeStats : ScrapeStats;
  pristine : bool;
  pageVar : option Page;
  trace : list Event
}.

(** The environment answers every call, knowing what happened so far, and
    tells the time. Once a scrape has written its count on a built-in object,
    later reads of the counters can see that write through the prototype
    chain; the built-in objects are not followed any further, and what the
    statements of [logScrape] do from then on is left to the environment
    too ([polluted]). *)
Record Oracle := {
  answer : ∀ X, list Event → Call X → result X;
  clock : list Event → Date;
  polluted : list Event → Date → string → string → ScrapeStats → Outcome
}.

Definition record_event (e : Event) (w : World) : World :=
  {| scrapeStats := scrapeStats w; pristine := pristine w; pageVar := pageVar w;
     trace := trace w ++ [e] |}.

(** How the statements of [logScrape] end, after the events [tr], on the
    counters [st]. *)
Definition increment (o : Oracle) (tr : list Event) (intact : bool) (date : Date)
    (url mode : string) (st : ScrapeStats) : Outcome :=
  if intact then logScrape_sync date url mode st
  else polluted o tr date url mode st.

Definition completion (out : Outcome) : result unit :=
  match out with
  | Raised _ => Throw TypeError
  | _ => Ok tt
  end.

Definition untouched (out : Outcome) : bool :=
  match out with
  | Spilled _ => false
  | _ => true
  end.

(** The world after those statements. *)
Definition incremented (out : Outcome) (w : World) : World :=
  {| scrapeStats := stats_of out; pristine := pristine w && untouched out;
     pageVar := pageVar w; trace := trace w |}.

Definition perform {X} (o : Oracle) (c : Eff X) (w : World) : X * World :=
  match c in Eff X return X * World with
  | Now => (clock o (trace w), w)
  | ReadStats => (scrapeStats w, w)
  | Increment date url mode =>
      let out := increment o (trace w) (pristine w) date url mode (scrapeStats w) in
      (completion out, incremented out w)
  | SetPage p =>
      (tt, {| scrapeStats := scrapeStats w; pristine := pristine w; pageVar := p;
              trace := trace w |})
  | GetPage => (pageVar w, w)
  | Reply r => (tt, record_event (EvReply r) w)
  end.

(** What a run of the handler that read the clock after the events [tr]
    did to the counters of [w], giving [w']: the scrape was not recorded (no
    statement of [logScrape] ran, or they threw), or the statements
    completed. *)
Definition not_recorded (o : Oracle) (tr : list Event) (target key : string)
    (w w' : World) : Prop :=
  (scrapeStats w' = scrapeStats w ∧ pristine w' = pristine w)
  ∨ (let out := increment o tr (pristine w) (clock o tr) target key (scrapeStats w) in
     completion out = Throw TypeError
     ∧ scrapeStats w' = stats_of out
     ∧ pristine w' = pristine w && untouched out).

Definition recorded (o : Oracle) (tr : list Event) (target key : string)
    (w w' : World) : Prop :=
  let out := increment o tr (pristine w) (clock o tr) target key (scrapeStats w) in
  completion out = Ok tt
  ∧ scrapeStats w' = stats_of out
  ∧ pristine w' = pristine w && untouched out.

Fixpoint run {A} (o : Oracle) (p : Prog A) (w : World) : result A * World :=
  match p with
  | Ret r => (r, w)
  | Await c k =>
      let r := answer o _ (trace w) c in
      run o (k r) (record_event (EvCall c r) w)
  | Sync c k =>
      let '(x, w') := perform o c w in
      run o (k x) w'
  end.

(** Classifiers of events. *)
Definition replies (tr : list Event) : list Response :=
  omap (λ e, match e with EvReply r => Some r | _ => None end) tr.

Definition opened_page (e : Event) : option Page :=
  match e with
  | @EvCall X c r =>
      match c in Call X return result X → option Page with
      | NewPage _ => λ r, match r with Ok p => Some p | Throw _ => None end
      | _ => λ _, None
      end r
  | EvReply _ => None
  end.

Definition closed_page (e : Event) : option Page :=
  match e with
  | EvCall (ClosePage p) _ => Some p
  | _ => None
  end.

Definition is_close_browser (e : Event) : bool :=
  match e with
  | EvCall (CloseBrowser _) _ => true
  | _ => false
  end.

Definition failed_write (e : Event) : bool :=
  match e with
  | EvCall (WriteFile _) (Throw _) => true
  | _ => false
  end.

(** An event that touches the browser, a page or the stats file. *)
Definition is_call (e : Event) : bool :=
  match e with
  | EvCall _ _ => true
  | EvReply _ => false
  end.

(** The capture of the print layout failed. *)
Definition failed_capture (e : Event) : bool :=
  match e with
  | EvCall (OuterHTML _) (Throw _) => true
  | _ => false
  end.

(** [page.emulateMediaType('screen')] was called. *)
Definition restores_screen (e : Event) : bool :=
  match e with
  | EvCall (EmulateMediaType _ media) _ => String.eqb media "screen"
  | _ => false
  end.

(** The events a run appends to the trace. *)
Definition events_of {A} (o : Oracle) (p : Prog A) (w : World) : list Event :=
  drop (length (trace w)) (trace (run o p w).2).

(** [footprint P Q p]: whatever the environment answers, [p] performs only
    calls accepted by [P] and effects accepted by [Q]. *)
Fixpoint footprint {A} (P : ∀ X, Call X → bool) (Q : ∀ X, Eff X → bool) (p : Prog A) : Prop :=
  match p with
  | Ret _ => True
  | Await c k => P _ c = true ∧ ∀ r, footprint P Q (k r)
  | Sync c k => Q _ c = true ∧ ∀ x, footprint P Q (k x)
  end.

Definition event_within (P : ∀ X, Call X → bool) (Q : ∀ X, Eff X → bool) (e : Event) : bool :=
  match e with
  | EvCall c _ => P _ c
  | EvReply r => Q _ (Reply r)
  end.

(** Calls that only read or restyle an open page. *)
Definition reads_page : ∀ X, Call X → bool :=
  λ X c, match c with
         | Content _ | MetaElements _ | Screenshot _ | AddPrintStyle _
         | EmulateMediaType _ _ | OuterHTML _ => true
         | _ => false
         end.

Definition no_effect : ∀ X, Eff X → bool := λ X c, false.

(** Navigation, and the reads of the extractors. *)
Definition navigates : ∀ X, Call X → bool :=
  λ X c, match c with
         | Goto _ _ => true
         | c => reads_page _ c
         end.

(** ** scraper.ts: the content extractors, and the server module *)

Record ScrapeRequest := { url : option string; mode : option string }.

(** An HTTP request to the [/scrape] route: the request target, the
    [x-api-key] header and the parsed body. The body is [None] when the
    request has none ([request.body] is [undefined]) or when it is the JSON
    value [null]; any other body can be destructured, and a field it lacks
    is [None]. *)
Record HttpRequest := {
  target : string;
  x_api_key : option string;
  body : option ScrapeRequest
}.

(** The property key and the text a possibly omitted [mode] converts to. *)
Definition mode_key (mode : option string) : string := default "undefined" mode.

Definition relevantMetaTags : list string :=
  [ "description"; "keywords"; "author"; "publication_date" ].

(** [getAttribute('name') || getAttribute('property')] *)
Definition meta_key (m : MetaElement) : option string :=
  if truthy_ostr (attr_name m) then attr_name m else attr_property m.

(** The script [extractEnhancedArticle] evaluates in the page, applied to
    the [<meta>] elements of the document: one turn of its loop, and the
    loop. *)
Definition meta_step (data : gmap string string) (m : MetaElement) : gmap string string :=
  let name := meta_key m in
  let content := attr_content m in
  if truthy_ostr name && truthy_ostr content
  then Js.set (default "" name) (default "" content) data
  else data.

Definition collect_meta (metaTags : list MetaElement) : gmap string string :=
  foldl meta_step ∅ metaTags.

(** One turn of the loop over [relevantMetaTags]. None of the four names is
    inherited from [Object.prototype], so [metadata[tag]] is the own
    property or [undefined]. *)
Definition add_meta_line (metadata : gmap string string) (enhancedContent tag : string)
  : string :=
  match metadata !! tag with
  | Some v => if truthy_str v then enhancedContent +:+ nl +:+ tag +:+ ": " +:+ v
              else enhancedContent
  | None => enhancedContent
  end.

(** The text the readability pass yields for a document. *)
Definition readable_text (parse : string → option Article) (html : string) : string :=
  match parse html with Some a => textContent a | None => "" end.

(** The author section of the article output. *)
Definition author_section (article : Article) : string :=
  match byline article with
  | Some b => if truthy_str b then "Author: " +:+ b +:+ nl +:+ nl else ""
  | None => ""
  end.

Definition meta_line (entry : string * string) : string :=
  nl +:+ entry.1 +:+ ": " +:+ entry.2.

Definition concat_lines (lines : list string) : string :=
  foldr String.app "" lines.

(** The entries of [metadata] among [tags], in the order of [tags]. *)
Definition listing (metadata : gmap string string) (tags : list string)
  : list (string * string) :=
  omap (λ tag, match metadata !! tag with
               | Some v => if truthy_str v then Some (tag, v) else None
               | None => None
               end) tags.

(** A [<meta>] element of the page carries [tag] with the value [v]. *)
Definition on_page (metaTags : list MetaElement) (tag v : string) : Prop :=
  ∃ m, m ∈ metaTags ∧ meta_key m = Some tag ∧ attr_content m = Some v.

Section Service.

(** [new Readability(new JSDOM(content).window.document).parse()]: an
    article, or [null]. *)
Variable parse : string → option Article.

(** [Buffer.toString('base64')] *)
Variable toBase64 : string → string.

(** The configured secret. *)
Variable API_KEY : string.

Definition extractReadableContent (page : Page) : Prog string :=
  content ← await (Content page);
  let article := parse content in
  mret (match article with Some a => textContent a | None => "" end).

Definition extractEnhancedArticle (page : Page) : Prog string :=
  content ← await (Content page);
  match parse content with
  | None => mret ""
  | Some article =>
    let enhancedContent := "Title: " +:+ title article +:+ nl +:+ nl in
    let enhancedContent :=
      if truthy_ostr (byline article)
      then enhancedContent +:+ "Author: " +:+ default "" (byline article) +:+ nl +:+ nl
      else enhancedContent in
    text ← extractReadableContent page;
    let enhancedContent := enhancedContent +:+ "Content:" +:+ nl +:+ text in
    metaTags ← await (MetaElements page);
    let metadata := collect_meta metaTags in
    let enhancedContent := enhancedContent +:+ nl +:+ nl +:+ "Metadata:" in
    mret (foldl (add_meta_line metadata) enhancedContent relevantMetaTags)
  end.

Definition takeScreenshot (page : Page) : Prog string :=
  screenshot ← await (Screenshot page);
  mret (toBase64 screenshot).

Definition getPageSource (page : Page) : Prog string :=
  await (Content page).

Definition getPrintVersion (page : Page) : Prog string :=
  try_catch
    (await (AddPrintStyle page);;
     await (EmulateMediaType page "print");;
     content ← await (OuterHTML page);
     await (EmulateMediaType page "screen");;
     mret content)
    (λ error, throw error).

(** *** Usage counter *)

Definition ensureDataDir : Prog unit :=
  try_catch (await Mkdir) (λ _, mret tt).

Definition saveStats : Prog unit :=
  ensureDataDir;;
  stats ← eff ReadStats;
  await (WriteFile stats).

Definition logScrape (url mode : string) : Prog unit :=
  date ← eff Now;
  attempt (Increment date url mode);;
  saveStats.

(** *** Request handling *)

Definition send (code : nat) (p : Payload) : Prog unit :=
  eff (Reply {| status := code; payload := p |}).

(** The [switch (mode)] of the handler. *)
Definition dispatch (mode : option string) (page : Page) : Prog string :=
  match mode with
  | Some m =>
    if String.eqb m "screenshot" then takeScreenshot page
    else if String.eqb m "source" then getPageSource page
    else if String.eqb m "print" then getPrintVersion page
    else if String.eqb m "article" then extractEnhancedArticle page
    else extractReadableContent page
  | None => extractReadableContent page
  end.

(** [const { url, mode } = request.body]: destructuring [undefined] or
    [null] throws. *)
Definition destructure (body : option ScrapeRequest) : Prog ScrapeRequest :=
  match body with
  | Some request => mret request
  | None => throw TypeError
  end.

(** The handler of [POST /scrape]. The destructuring of the body comes
    before the [try]: its error is not caught, and the promise of the handler
    rejects. *)
Definition scrape (body : option ScrapeRequest) : Prog unit :=
  request ← destructure body;
  if negb (truthy_ostr (url request)) then
    send 400 (ErrorBody "URL is required")
  else
    let target := default "" (url request) in
    eff (SetPage None);;
    finally
      (try_catch
         (browser ← await GetBrowser;
          page ← await (NewPage browser);
          eff (SetPage (Some page));;
          await (Goto page target);;
          result ← dispatch (mode request) page;
          logScrape target (mode_key (mode request));;
          send 200 (ContentBody result))
         (λ error,
            send 500 (ErrorBody "An error occurred while scraping the website")))
      (page ← eff GetPage;
       match page with
       | Some page => try_catch (await (ClosePage page)) (λ _, mret tt)
       | None => mret tt
       end).

(** The [preHandler] hook, followed by the route's handler. *)
Definition preHandler (request : HttpRequest) (done : Prog unit) : Prog unit :=
  if String.eqb (target request) "/" then done
  else if bool_decide (x_api_key request = Some API_KEY) then done
  else send 401 (ErrorBody "Unauthorized: Invalid API key").

Definition post_scrape (request : HttpRequest) : Prog unit :=
  preHandler request (scrape (body request)).

End Service.

Definition generic_failure : Response :=
  {| status := 500; payload := ErrorBody "An error occurred while scraping the website" |}.

Definition recognised_modes : list (option string) :=
  [ Some "text"; Some "article"; Some "screenshot"; Some "source"; Some "print" ].

(** ** The browser session: [getBrowser] under interleaved callers *)

(** Handlers interleave only at their [await]s. [getBrowser] has one
    suspension point of its own, [await promisify(exec)('which chromium')];
    its caller then awaits the promise it returns. The state holds the
    module variable [browserPromise], every promise
    [puppeteer.launch(...).catch(...)] created so far, and where each caller
    stands. *)
Module Session.

(** [String.prototype.trim] removes the white space and line terminators
    of the language from both ends. A string holds the UTF-8 encoding of its
    text, so these code points are sequences of one, two or three bytes:
    U+0009 to U+000D and U+0020; U+00A0; U+1680, U+2000 to U+200A, U+2028,
    U+2029, U+202F, U+205F, U+3000 and U+FEFF. *)
Definition space1 (c : ascii) : bool :=
  let n := nat_of_ascii c in
  ((9 <=? n) && (n <=? 13) || (n =? 32))%nat.

Definition space2 (c1 c2 : ascii) : bool :=
  ((nat_of_ascii c1 =? 194) && (nat_of_ascii c2 =? 160))%nat.

Definition space3 (c1 c2 c3 : ascii) : bool :=
  let n1 := nat_of_ascii c1 in
  let n2 := nat_of_ascii c2 in
  let n3 := nat_of_ascii c3 in
  ((n1 =? 225) && (n2 =? 154) && (n3 =? 128)
   || (n1 =? 226) && (n2 =? 128)
      && ((128 <=? n3) && (n3 <=? 138) || (n3 =? 168) || (n3 =? 169) || (n3 =? 175))
   || (n1 =? 226) && (n2 =? 129) && (n3 =? 159)
   || (n1 =? 227) && (n2 =? 128) && (n3 =? 128)
   || (n1 =? 239) && (n2 =? 187) && (n3 =? 191))%nat.

(** Removes the leading code points accepted by [two] and [three] (and by
    [space1]). *)
Fixpoint strip (two : ascii → ascii → bool) (three : ascii → ascii → ascii → bool)
    (s : string) : string :=
  match s with
  | "" => ""
  | String c1 s1 =>
    if space1 c1 then strip two three s1
    else
      match s1 with
      | "" => s
      | String c2 s2 =>
        if two c1 c2 then strip two three s2
        else
          match s2 with
          | "" => s
          | String c3 s3 => if three c1 c2 c3 then strip two three s3 else s
          end
      end
  end.

Definition trimStart (s : string) : string := strip space2 space3 s.

(** From the end, the bytes of a code point come in reverse. *)
Definition trimEnd (s : string) : string :=
  String.rev (strip (λ c2 c1, space2 c1 c2) (λ c3 c2 c1, space3 c1 c2 c3) (String.rev s)).

Definition trim (s : string) : string := trimEnd (trimStart s).

Inductive Settlement : Type :=
  | Pending
  | Fulfilled (browser : Browser)
  | Rejected (error : Error).

(** A launch attempt: the promise stored in [browserPromise]. *)
Record Launch := { executablePath : string; settlement : Settlement }.

Inductive Caller : Type :=
  | ResolvingPath
  | Awaiting (launch : nat)
  | Returned (r : result Browser).

Record State := {
  browserPromise : option nat;
  launches : list Launch;
  callers : gmap nat Caller
}.

Definition initial : State :=
  {| browserPromise := None; launches := []; callers := ∅ |}.

Inductive Step : Type :=
  | Invoke (caller : nat)
  | WhichSettles (caller : nat) (stdout : result string)
  | LaunchSettles (launch : nat) (r : result Browser)
  | Resume (caller : nat).

Definition is_pending (l : Launch) : bool :=
  match settlement l with Pending => true | _ => false end.

(** The launch attempts that are in flight. *)
Definition in_flight (s : State) : nat :=
  length (filter (λ l, is_pending l = true) (launches s)).

Definition settle (r : result Browser) (l : Launch) : Launch :=
  {| executablePath := executablePath l;
     settlement := match r with Ok b => Fulfilled b | Throw e => Rejected e end |}.

(** [getBrowser()] from its entry to its first suspension: with
    [browserPromise] null the caller goes on to
    [await promisify(exec)('which chromium')], otherwise it returns the
    stored promise at once. *)
Definition getBrowser (t : nat) (s : State) : State :=
  {| browserPromise := browserPromise s;
     launches := launches s;
     callers := <[t := match browserPromise s with
                       | None => ResolvingPath
                       | Some p => Awaiting p
                       end]> (callers s) |}.

(** [getBrowser()] resumed with the outcome of [which chromium]: on
    success, [browserPromise = puppeteer.launch({...}).catch(...)] and
    [return browserPromise], with no second look at the variable; a failed
    [which] rejects the call. *)
Definition getBrowser_resumed (t : nat) (stdout : result string) (s : State) : State :=
  match stdout with
  | Ok chromiumPath =>
    let p := length (launches s) in
    {| browserPromise := Some p;
       launches := launches s ++
         [{| executablePath := trim chromiumPath; settlement := Pending |}];
       callers := <[t := Awaiting p]> (callers s) |}
  | Throw e =>
    {| browserPromise := browserPromise s;
       launches := launches s;
       callers := <[t := Returned (Throw e)]> (callers s) |}
  end.

(** Attempt [p] settles. If it rejects, the [.catch] callback runs,
    [browserPromise = null; throw error], and the promise the callers hold
    is rejected with that error. *)
Definition launch_settled (p : nat) (r : result Browser) (l : Launch) (s : State) : State :=
  {| browserPromise := match r with
                       | Ok _ => browserPromise s
                       | Throw _ => None
                       end;
     launches := <[p := settle r l]> (launches s);
     callers := callers s |}.

(** The caller's [await getBrowser()] completes with the settled promise. *)
Definition resumed (t : nat) (r : result Browser) (s : State) : State :=
  {| browserPromise := browserPromise s;
     launches := launches s;
     callers := <[t := Returned r]> (callers s) |}.

Definition step (ev : Step) (s : State) : option State :=
  match ev with
  | Invoke t =>
    match callers s !! t with
    | Some _ => None
    | None => Some (getBrowser t s)
    end
  | WhichSettles t stdout =>
    match callers s !! t with
    | Some ResolvingPath => Some (getBrowser_resumed t stdout s)
    | _ => None
    end
  | LaunchSettles p r =>
    match launches s !! p with
    | Some l => if is_pending l then Some (launch_settled p r l s) else None
    | None => None
    end
  | Resume t =>
    match callers s !! t with
    | Some (Awaiting p) =>
      match settlement <$> launches s !! p with
      | Some (Fulfilled b) => Some (resumed t (Ok b) s)
      | Some (Rejected e) => Some (resumed t (Throw e) s)
      | _ => None
      end
    | _ => None
    end
  end.

Fixpoint exec (evs : list Step) (s : State) : option State :=
  match evs with
  | [] => Some s
  | ev :: evs' =>
    match step ev s with
    | Some s' => exec evs' s'
    | None => None
    end
  end.

(** Two requests arrive before any browser exists. *)
Definition two_early_requests : list Step :=
  [ Invoke 0; Invoke 1;
    WhichSettles 0 (Ok "/usr/bin/chromium"); WhichSettles 1 (Ok "/usr/bin/chromium") ].

(** One caller has started a launch; a second awaits the same promise. *)
Definition launching : State :=
  default initial
    (exec [Invoke 0; WhichSettles 0 (Ok "/usr/bin/chromium"); Invoke 1] initial).

Definition launch_failed : State :=
  default initial (step (LaunchSettles 0 (Throw "spawn failed")) launching).

(** A caller is suspended at [await promisify(exec)('which chromium')]. *)
Definition is_resolving (c : Caller) : bool :=
  match c with ResolvingPath => true | _ => false end.

Definition resolving (s : State) : Prop :=
  map_Exists (λ _ c, is_resolving c = true) (callers s).

(** An execution in which no call of [getBrowser] is entered while another
    caller is between the test of [browserPromise] and its assignment. *)
Fixpoint calm (evs : list Step) (s : State) : bool :=
  match evs with
  | [] => true
  | ev :: evs' =>
    match ev with
    | Invoke _ => negb (bool_decide (resolving s))
    | _ => true
    end
    && match step ev s with
       | Some s' => calm evs' s'
       | None => true
       end
  end.

(** The browser is up: [browserPromise] holds a promise fulfilled with
    [b], no launch is pending and no caller is resolving the path. *)
Definition browser_up (s : State) (p : nat) (b : Browser) : Prop :=
  browserPromise s = Some p
  ∧ settlement <$> launches s !! p = Some (Fulfilled b)
  ∧ Forall (λ l, is_pending l = false) (launches s)
  ∧ ¬ resolving s.

(** What every reachable state satisfies. *)
Definition sound (s : State) : Prop :=
  (∀ q, browserPromise s = Some q →
        ∃ l, launches s !! q = Some l ∧ ∀ e, settlement l ≠ Rejected e)
  ∧ (∀ t p, callers s !! t = Some (Awaiting p) → p < length (launches s)).

(** What calm executions keep: at most one caller resolves the path, and
    then nothing is in flight and [browserPromise] is null; at most one
    launch is in flight, and none while [browserPromise] is null. *)
Definition single_flight (s : State) : Prop :=
  (∀ t t', callers s !! t = Some ResolvingPath →
           callers s !! t' = Some ResolvingPath → t = t')
  ∧ (resolving s → in_flight s = 0 ∧ browserPromise s = None)
  ∧ (in_flight s ≤ 1)%nat
  ∧ (browserPromise s = None → in_flight s = 0).

(** One request has been served by a browser and nothing is in flight. *)
Definition served : State :=
  default initial
    (exec [Invoke 0; WhichSettles 0 (Ok "/usr/bin/chromium");
           LaunchSettles 0 (Ok 1); Resume 0] initial).

End Session.

(** ** Sample environments *)

Definition sample_html : string := "<html>doc</html>".

Definition sample_meta : list MetaElement :=
  [ {| attr_name := Some "author"; attr_property := None; attr_content := Some "A" |};
    {| attr_name := None; attr_property := Some "og:title"; attr_content := Some "T" |};
    {| attr_name := Some "description"; attr_property := None; attr_content := Some "D" |} ].

Definition sample_article : Article :=
  {| title := "T"; byline := None; textContent := "Hello World" |}.

(** A readability pass that finds an article in every non-empty document. *)
Definition sample_parse (html : string) : option Article :=
  if String.eqb html "" then None else Some sample_article.

(** An environment in which every call succeeds, except that the write of
    the stats file has the outcome [write]; pages have the content [html]
    and the meta elements [metaTags]. *)
Definition sample_oracle (html : string) (metaTags : list MetaElement) (write : result unit)
  : Oracle :=
  {| answer := λ X _ c,
       match c in Call X return result X with
       | GetBrowser => Ok 1
       | NewPage _ => Ok 7
       | Goto _ _ => Ok tt
       | Content _ => Ok html
       | MetaElements _ => Ok metaTags
       | Screenshot _ => Ok "PNG"
       | AddPrintStyle _ => Ok tt
       | EmulateMediaType _ _ => Ok tt
       | OuterHTML _ => Ok html
       | Mkdir => Ok tt
       | WriteFile _ => write
       | ClosePage _ => Ok tt
       | CloseBrowser _ => Ok tt
       end;
     clock := λ _, {| fullYear := 2024; monthIndex := 4 |};
     polluted := λ _ _ _ _ st, Raised st |}.

(** The process after start-up with no stats file. *)
Definition empty_world : World :=
  {| scrapeStats := ∅; pristine := true; pageVar := None; trace := [] |}.

(** The process with one count at 2^53, the first integer that [++] can
    no longer increment. *)
Definition saturated_world : World :=
  {| scrapeStats :=
       {[ "2024-05" := {[ "https://example.com/" := {[ "text" := Js.Num (2 ^ 53) ]} ]} ]};
     pristine := true; pageVar := None; trace := [] |}.

Definition sample_request (m : option string) : ScrapeRequest :=
  {| url := Some "https://example.com/"; mode := m |}.

(** An environment in which navigation, the read of the page content and
    the capture of the print layout have the given outcomes, and every other
    call succeeds. *)
Definition flaky_oracle (goto : result unit) (content capture : result string) : Oracle :=
  {| answer := λ X _ c,
       match c in Call X return result X with
       | GetBrowser => Ok 1
       | NewPage _ => Ok 7
       | Goto _ _ => goto
       | Content _ => content
       | MetaElements _ => Ok []
       | Screenshot _ => Ok "PNG"
       | AddPrintStyle _ => Ok tt
       | EmulateMediaType _ _ => Ok tt
       | OuterHTML _ => capture
       | Mkdir => Ok tt
       | WriteFile _ => Ok tt
       | ClosePage _ => Ok tt
       | CloseBrowser _ => Ok tt
       end;
     clock := λ _, {| fullYear := 2024; monthIndex := 4 |};
     polluted := λ _ _ _ _ st, Raised st |}.

(** A request without the API key. *)
Definition anonymous_request : HttpRequest :=
  {| target := "/scrape"; x_api_key := None;
     body := Some (sample_request (Some "text")) |}.

Definition may_2024 : Date := {| fullYear := 2024; monthIndex := 4 |}.


(** * Theorems *)

Module SessionFacts.
Import Session.

Lemma step_settled_stable ev s s' p l :
  step ev s = Some s' →
  launches s !! p = Some l → is_pending l = false →
  launches s' !! p = Some l.
Proof.
  intros Hstep Hl Hp. destruct ev as [t | t [stdout | e] | q r | t]; simpl in Hstep.
  - destruct (callers s !! t); simplify_eq. done.
  - destruct (callers s !! t) as [[]|]; simplify_eq. simpl.
    by apply lookup_app_l_Some.
  - destruct (callers s !! t) as [[]|]; simplify_eq. done.
  - destruct (launches s !! q) as [lq|] eqn:Hq; [|done].
    destruct (is_pending lq) eqn:Hpq; simplify_eq. simpl.
    destruct (decide (q = p)) as [->|Hne]; [congruence|].
    by rewrite list_lookup_insert_ne.
  - destruct (callers s !! t) as [[]|]; simplify_eq.
    destruct (settlement <$> launches s !! launch) as [[]|]; simplify_eq; done.
Qed.

Lemma step_returned_stable ev s s' t r :
  step ev s = Some s' →
  callers s !! t = Some (Returned r) →
  callers s' !! t = Some (Returned r).
Proof.
  intros Hstep Ht. destruct ev as [u | u [stdout | e] | q r' | u]; simpl in Hstep.
  - destruct (callers s !! u) eqn:Hu; simplify_eq. simpl.
    rewrite lookup_insert_ne; [done | congruence].
  - destruct (callers s !! u) as [[]|] eqn:Hu; simplify_eq. simpl.
    rewrite lookup_insert_ne; [done | congruence].
  - destruct (callers s !! u) as [[]|] eqn:Hu; simplify_eq. simpl.
    rewrite lookup_insert_ne; [done | congruence].
  - destruct (launches s !! q) as [lq|]; [|done].
    destruct (is_pending lq); simplify_eq. done.
  - destruct (callers s !! u) as [[| p |]|] eqn:Hu; simplify_eq.
    destruct (settlement <$> launches s !! p) as [[]|]; simplify_eq; simpl;
      (rewrite lookup_insert_ne; [done | congruence]).
Qed.

(** A caller that awaits a rejected attempt keeps awaiting it until it is
    resumed, and is resumed with the error of that attempt. *)
Lemma step_awaiting_rejected ev s s' t p l e :
  step ev s = Some s' →
  launches s !! p = Some l → settlement l = Rejected e →
  callers s !! t = Some (Awaiting p) →
  callers s' !! t = Some (Awaiting p) ∨ callers s' !! t = Some (Returned (Throw e)).
Proof.
  intros Hstep Hl He Ht. destruct ev as [u | u [stdout | e'] | q r' | u]; simpl in Hstep.
  - destruct (callers s !! u) eqn:Hu; simplify_eq. simpl. left.
    rewrite lookup_insert_ne; [done | congruence].
  - destruct (callers s !! u) as [[]|] eqn:Hu; simplify_eq. simpl. left.
    rewrite lookup_insert_ne; [done | congruence].
  - destruct (callers s !! u) as [[]|] eqn:Hu; simplify_eq. simpl. left.
    rewrite lookup_insert_ne; [done | congruence].
  - destruct (launches s !! q) as [lq|]; [|done].
    destruct (is_pending lq); simplify_eq. by left.
  - destruct (callers s !! u) as [[| p' |]|] eqn:Hu; simplify_eq.
    destruct (decide (u = t)) as [->|Hne].
    + simplify_eq. rewrite Hl in Hstep. simpl in Hstep. rewrite He in Hstep.
      simplify_eq. simpl. right. by rewrite lookup_insert_eq.
    + destruct (settlement <$> launches s !! p') as [[]|]; simplify_eq; simpl; left;
        by rewrite lookup_insert_ne.
Qed.

Lemma exec_awaiting_rejected evs s s' t p l e :
  exec evs s = Some s' →
  launches s !! p = Some l → settlement l = Rejected e →
  callers s !! t = Some (Awaiting p) ∨ callers s !! t = Some (Returned (Throw e)) →
  launches s' !! p = Some l
  ∧ (callers s' !! t = Some (Awaiting p) ∨ callers s' !! t = Some (Returned (Throw e))).
Proof.
  revert s. induction evs as [|ev evs IH]; intros s Hexec Hl He Ht; simpl in Hexec.
  - by simplify_eq.
  - destruct (step ev s) as [s1|] eqn:Hstep; [|done].
    assert (is_pending l = false) as Hnp by (unfold is_pending; by rewrite He).
    apply (IH s1 Hexec); [by eapply step_settled_stable | done |].
    destruct Ht as [Ht|Ht].
    + by eapply step_awaiting_rejected.
    + right. by eapply step_returned_stable.
Qed.

(** Launch de-duplication as far as the guard reaches: once
    [browserPromise] is set, a call starts no launch and awaits the stored
    promise. *)
Lemma invoke_shares_stored_promise s t p :
  browserPromise s = Some p → callers s !! t = None →
  step (Invoke t) s =
    Some {| browserPromise := Some p; launches := launches s;
            callers := <[t := Awaiting p]> (callers s) |}.
Proof. intros Hp Ht. simpl. rewrite Ht. unfold getBrowser. by rewrite Hp. Qed.

(** A failed path resolution rejects the call of that caller alone and
    leaves [browserPromise] as it is. *)
Lemma which_failure s t e s' :
  step (WhichSettles t (Throw e)) s = Some s' →
  callers s' !! t = Some (Returned (Throw e))
  ∧ browserPromise s' = browserPromise s ∧ launches s' = launches s.
Proof.
  simpl. destruct (callers s !! t) as [[]|]; intros; simplify_eq.
  simpl. by rewrite lookup_insert_eq.
Qed.

(** C1 (defect): two requests that arrive before any browser exists both
    pass the [!browserPromise] test, because the variable is assigned only
    after [await promisify(exec)('which chromium')]. Both launch: two
    attempts are in flight, and the two callers await different
    promises. *)
Theorem getBrowser_two_launches_in_flight :
  ∃ s, exec two_early_requests initial = Some s
    ∧ in_flight s = 2
    ∧ callers s !! 0 = Some (Awaiting 0)
    ∧ callers s !! 1 = Some (Awaiting 1).
Proof. eexists. repeat split; vm_compute; reflexivity. Qed.

(** C4: when a launch attempt fails, [browserPromise] is null afterwards;
    every caller that was awaiting the attempt gets its error, whatever
    happens before the caller is resumed; and the next call of
    [getBrowser] goes through the path resolution again and starts a new
    launch, which it awaits. *)
Theorem launch_failure_clears_and_propagates s p e s' :
  step (LaunchSettles p (Throw e)) s = Some s' →
  browserPromise s' = None
  ∧ (∀ t evs s1,
       callers s !! t = Some (Awaiting p) →
       exec evs s' = Some s1 →
       callers s1 !! t = Some (Returned (Throw e))
       ∨ (callers s1 !! t = Some (Awaiting p)
          ∧ ∃ s2, step (Resume t) s1 = Some s2
                  ∧ callers s2 !! t = Some (Returned (Throw e))))
  ∧ (∀ t stdout,
       callers s' !! t = None →
       ∃ s1 s2,
         step (Invoke t) s' = Some s1
         ∧ callers s1 !! t = Some ResolvingPath
         ∧ launches s1 = launches s'
         ∧ step (WhichSettles t (Ok stdout)) s1 = Some s2
         ∧ launches s2 = (launches s' ++
             [{| executablePath := trim stdout; settlement := Pending |}])%list
         ∧ browserPromise s2 = Some (length (launches s'))
         ∧ callers s2 !! t = Some (Awaiting (length (launches s')))).
Proof.
  intros Hstep. simpl in Hstep.
  destruct (launches s !! p) as [l|] eqn:Hl; [|done].
  destruct (is_pending l) eqn:Hpend; [|done]. simplify_eq. simpl.
  assert (p < length (launches s)) as Hlt by (by eapply lookup_lt_Some).
  split; [done|]. split.
  - intros t evs s1 Ht Hexec.
    destruct (exec_awaiting_rejected evs _ s1 t p (settle (Throw e) l) e Hexec)
      as [Hl1 [Ht1|Ht1]]; simpl; auto.
    { by rewrite list_lookup_insert_eq. }
    right. split; [done|]. simpl. rewrite Ht1, Hl1. simpl.
    eexists. split; [done|]. simpl. by rewrite lookup_insert_eq.
  - intros t stdout Ht. simpl in Ht. rewrite Ht.
    do 2 eexists. split; [done|]. simpl. rewrite lookup_insert_eq.
    repeat split. simpl. by rewrite lookup_insert_eq.
Qed.

Lemma launch_failure_witness :
  step (LaunchSettles 0 (Throw "spawn failed")) launching = Some launch_failed
  ∧ callers launching !! 1 = Some (Awaiting 0)
  ∧ browserPromise launch_failed = None
  ∧ (∀ t evs s1,
       callers launching !! t = Some (Awaiting 0) →
       exec evs launch_failed = Some s1 →
       callers s1 !! t = Some (Returned (Throw "spawn failed"))
       ∨ (callers s1 !! t = Some (Awaiting 0)
          ∧ ∃ s2, step (Resume t) s1 = Some s2
                  ∧ callers s2 !! t = Some (Returned (Throw "spawn failed"))))
  ∧ (∀ t stdout,
       callers launch_failed !! t = None →
       ∃ s1 s2,
         step (Invoke t) launch_failed = Some s1
         ∧ callers s1 !! t = Some ResolvingPath
         ∧ launches s1 = launches launch_failed
         ∧ step (WhichSettles t (Ok stdout)) s1 = Some s2
         ∧ launches s2 = (launches launch_failed ++
             [{| executablePath := trim stdout; settlement := Pending |}])%list
         ∧ browserPromise s2 = Some (length (launches launch_failed))
         ∧ callers s2 !! t = Some (Awaiting (length (launches launch_failed)))).
Proof.
  assert (step (LaunchSettles 0 (Throw "spawn failed")) launching = Some launch_failed)
    as H by (vm_compute; reflexivity).
  split; [exact H|]. split; [vm_compute; reflexivity|].
  exact (launch_failure_clears_and_propagates launching 0 "spawn failed" launch_failed H).
Defined.

End SessionFacts.

(** ** Strings *)

Lemma str_app_cons c (s1 s2 : string) : String c s1 +:+ s2 = String c (s1 +:+ s2).
Proof. reflexivity. Qed.

Lemma str_app_nil_l (s : string) : "" +:+ s = s.
Proof. reflexivity. Qed.

Lemma str_app_nil_r (s : string) : s +:+ "" = s.
Proof. induction s as [|c s IH]; [done|]. by rewrite str_app_cons, IH. Qed.

Lemma str_app_assoc (s1 s2 s3 : string) : (s1 +:+ s2) +:+ s3 = s1 +:+ (s2 +:+ s3).
Proof. induction s1 as [|c s1 IH]; [done|]. by rewrite !str_app_cons, IH. Qed.

(** ** Running programs *)

Lemma run_bind {A B} o (p : Prog A) (f : A → Prog B) w :
  run o (bind p f) w =
    match run o p w with
    | (Ok a, w1) => run o (f a) w1
    | (Throw e, w1) => (Throw e, w1)
    end.
Proof.
  revert w. induction p as [[a|e] | X c k IH | X c k IH]; intros w; simpl; auto.
  destruct (perform o c w) as [x w1]. apply IH.
Qed.

Lemma run_try_catch {A} o (p : Prog A) (h : Error → Prog A) w :
  run o (try_catch p h) w =
    match run o p w with
    | (Ok a, w1) => (Ok a, w1)
    | (Throw e, w1) => run o (h e) w1
    end.
Proof.
  revert w. induction p as [[a|e] | X c k IH | X c k IH]; intros w; simpl; auto.
  destruct (perform o c w) as [x w1]. apply IH.
Qed.

Lemma run_finally {A} o (p : Prog A) (f : Prog unit) w :
  run o (finally p f) w =
    let '(r, w1) := run o p w in
    match run o f w1 with
    | (Ok _, w2) => (r, w2)
    | (Throw e, w2) => (Throw e, w2)
    end.
Proof.
  revert w. induction p as [r | X c k IH | X c k IH]; intros w; simpl.
  - rewrite run_bind. by destruct (run o f w) as [[[]|e] w2].
  - apply IH.
  - destruct (perform o c w) as [x w1]. apply IH.
Qed.

Lemma run_mbind {A B} o (p : Prog A) (f : A → Prog B) w :
  run o (p ≫= f) w =
    match run o p w with
    | (Ok a, w1) => run o (f a) w1
    | (Throw e, w1) => (Throw e, w1)
    end.
Proof. apply run_bind. Qed.

Lemma run_await {X} o (c : Call X) w :
  run o (await c) w =
    (answer o X (trace w) c, record_event (EvCall c (answer o X (trace w) c)) w).
Proof. reflexivity. Qed.

Lemma run_eff {X} o (c : Eff X) w :
  run o (eff c) w = (Ok (perform o c w).1, (perform o c w).2).
Proof. unfold eff. simpl. by destruct (perform o c w). Qed.

Lemma run_mret {A} o (a : A) w : run o (mret a) w = (Ok a, w).
Proof. reflexivity. Qed.

Lemma run_trace {A} o (p : Prog A) w :
  trace (run o p w).2 = (trace w ++ events_of o p w)%list.
Proof.
  unfold events_of.
  enough (∃ evs, trace (run o p w).2 = (trace w ++ evs)%list) as [evs ->].
  { by rewrite drop_app_length. }
  revert w. induction p as [r | X c k IH | X c k IH]; intros w; simpl.
  - exists []. by rewrite app_nil_r.
  - destruct (IH (answer o X (trace w) c)
                 (record_event (EvCall c (answer o X (trace w) c)) w)) as [evs ->].
    simpl. rewrite <- app_assoc. eauto.
  - destruct (perform o c w) as [x w1] eqn:Hp.
    destruct (IH x w1) as [evs ->].
    destruct c; simpl in Hp; simplify_eq; simpl; eauto.
    rewrite <- app_assoc. eauto.
Qed.

(** *** Footprints *)

Create HintDb footprint.

Lemma footprint_bind {A B} P Q (p : Prog A) (f : A → Prog B) :
  footprint P Q p → (∀ a, footprint P Q (f a)) → footprint P Q (p ≫= f).
Proof.
  intros Hp Hf. unfold mbind, Prog_bind.
  induction p as [[a|e] | X c k IH | X c k IH]; simpl in *; auto;
    destruct Hp as [Hc Hk]; split; auto.
Qed.

Lemma footprint_try_catch {A} P Q (p : Prog A) (h : Error → Prog A) :
  footprint P Q p → (∀ e, footprint P Q (h e)) → footprint P Q (try_catch p h).
Proof.
  intros Hp Hh.
  induction p as [[a|e] | X c k IH | X c k IH]; simpl in *; auto;
    destruct Hp as [Hc Hk]; split; auto.
Qed.

Lemma footprint_await {X} (P : ∀ X, Call X → bool) Q (c : Call X) :
  P _ c = true → footprint P Q (await c).
Proof. intros Hc. simpl. split; [done|]. by intros []. Qed.

Lemma footprint_eff {X} P (Q : ∀ X, Eff X → bool) (c : Eff X) :
  Q _ c = true → footprint P Q (eff c).
Proof. intros Hc. simpl. split; done. Qed.

Lemma footprint_mret {A} P Q (a : A) : footprint P Q (mret a : Prog A).
Proof. done. Qed.

Lemma footprint_throw {A} P Q e : footprint P Q (throw e : Prog A).
Proof. done. Qed.

#[export] Hint Resolve footprint_bind footprint_try_catch footprint_await
  footprint_eff footprint_mret footprint_throw : footprint.

(** Footprints of straight-line programs follow their syntax. *)
Ltac footprint_step :=
  lazymatch goal with
  | |- ∀ _, _ => intros ?; cbv beta
  | |- footprint _ _ (_ ≫= _) => apply footprint_bind
  | |- footprint _ _ (try_catch _ _) => apply footprint_try_catch
  | |- footprint _ _ (await _) => apply footprint_await; reflexivity
  | |- footprint _ _ (eff _) => apply footprint_eff; reflexivity
  | |- footprint _ _ (mret _) => apply footprint_mret
  | |- footprint _ _ (throw _) => apply footprint_throw
  end.

Ltac footprint_auto := repeat footprint_step; auto with footprint.

(** A program stays within its footprint: the events it appends are
    accepted ones, and the counters and the handler's [page] variable change
    only if the footprint lets them. *)
Lemma run_footprint {A} P Q o (p : Prog A) w :
  footprint P Q p →
  Forall (λ e, event_within P Q e = true) (events_of o p w)
  ∧ ((∀ d u m, Q _ (Increment d u m) = false) →
     scrapeStats (run o p w).2 = scrapeStats w ∧ pristine (run o p w).2 = pristine w)
  ∧ ((∀ x, Q _ (SetPage x) = false) → pageVar (run o p w).2 = pageVar w).
Proof.
  intros Hp.
  enough (∃ evs, trace (run o p w).2 = (trace w ++ evs)%list
                 ∧ Forall (λ e, event_within P Q e = true) evs
                 ∧ ((∀ d u m, Q _ (Increment d u m) = false) →
                    scrapeStats (run o p w).2 = scrapeStats w
                    ∧ pristine (run o p w).2 = pristine w)
                 ∧ ((∀ x, Q _ (SetPage x) = false) → pageVar (run o p w).2 = pageVar w))
    as (evs & Htr & Hall & Hst & Hpg).
  { rewrite run_trace in Htr. apply app_inv_head in Htr. by subst. }
  revert w. induction p as [r | X c k IH | X c k IH]; intros w; simpl in *.
  - exists []. by rewrite app_nil_r.
  - destruct Hp as [Hc Hk].
    destruct (IH (answer o X (trace w) c) (Hk _)
                 (record_event (EvCall c (answer o X (trace w) c)) w))
      as (evs & -> & Hall & Hst & Hpg).
    eexists. split; [simpl; by rewrite <- app_assoc|].
    split; [by constructor|]. done.
  - destruct Hp as [Hc Hk].
    destruct (perform o c w) as [x w1] eqn:Hperf.
    destruct (IH x (Hk x) w1) as (evs & -> & Hall & Hst & Hpg).
    destruct c; simpl in Hperf; simplify_eq; simpl in *.
    + exists evs. done.
    + exists evs. done.
    + exists evs. split; [done|]. split; [done|].
      split; [|done]. intros HQ. specialize (HQ date url0 mode0). congruence.
    + exists evs. split; [done|]. split; [done|]. split; [done|].
      intros HQ. by rewrite HQ in Hc.
    + exists evs. done.
    + eexists. split; [by rewrite <- app_assoc|]. split; [by constructor|]. done.
Qed.

(** ** The extractors *)

Lemma truthy_ostr_Some o : truthy_ostr o = true → ∃ s, o = Some s ∧ s ≠ "".
Proof. destruct o as [[|c s]|]; simpl; intros; simplify_eq; eauto. Qed.

Lemma foldl_add_meta_line metadata acc tags :
  foldl (add_meta_line metadata) acc tags =
    acc +:+ concat_lines (meta_line <$> listing metadata tags).
Proof.
  revert acc. induction tags as [|tag tags IH]; intros acc; simpl.
  - by rewrite str_app_nil_r.
  - rewrite IH. unfold add_meta_line.
    destruct (metadata !! tag) as [v|]; [|done].
    destruct (truthy_str v); [|done]. simpl.
    unfold meta_line at 2. simpl. by rewrite !str_app_assoc.
Qed.


Lemma elem_of_listing metadata tags tag v :
  (tag, v) ∈ listing metadata tags ↔
  tag ∈ tags ∧ metadata !! tag = Some v ∧ truthy_str v = true.
Proof.
  unfold listing. rewrite list_elem_of_omap. split.
  - intros (t & Ht & Hm). destruct (metadata !! t) as [v'|] eqn:Hl; [|done].
    destruct (truthy_str v') eqn:Hv; simplify_eq. done.
  - intros (Ht & Hl & Hv). exists tag. by rewrite Hl, Hv.
Qed.

(** The script stores only what some element of the page carries. *)
Lemma foldl_meta_step_sound metaTags data tag v :
  foldl meta_step data metaTags !! tag = Some v →
  data !! tag = Some v ∨ (v ≠ "" ∧ on_page metaTags tag v).
Proof.
  revert data. induction metaTags as [|m ms IH]; intros data; simpl; [by left|].
  intros H. destruct (IH _ H) as [Hd | [Hv (m' & Hin & Hk & Hc)]].
  - unfold meta_step in Hd.
    destruct (truthy_ostr (meta_key m)) eqn:Hname; simpl in Hd; [|by left].
    destruct (truthy_ostr (attr_content m)) eqn:Hcont; simpl in Hd; [|by left].
    apply truthy_ostr_Some in Hname as (n & Hn & Hn').
    apply truthy_ostr_Some in Hcont as (c & Hc & Hc').
    rewrite Hn, Hc in Hd. simpl in Hd. unfold Js.set in Hd.
    destruct (decide (n = tag)) as [->|Hne].
    + case_bool_decide.
      * destruct (data !! tag) eqn:Hold; [|left; congruence].
        rewrite lookup_insert_eq in Hd. simplify_eq.
        right. split; [done|]. exists m. split; [by left|done].
      * rewrite lookup_insert_eq in Hd. simplify_eq.
        right. split; [done|]. exists m. split; [by left|done].
    + left. case_bool_decide; [destruct (data !! n)|];
        by rewrite ?lookup_insert_ne in Hd.
  - right. split; [done|]. exists m'. split; [by right|done].
Qed.

Lemma collect_meta_sound metaTags tag v :
  collect_meta metaTags !! tag = Some v → v ≠ "" ∧ on_page metaTags tag v.
Proof.
  intros H. by destruct (foldl_meta_step_sound _ _ _ _ H) as [Hd|].
Qed.




Lemma run_extractReadableContent parse o page w :
  run o (extractReadableContent parse page) w =
    match answer o _ (trace w) (Content page) with
    | Ok html =>
        (Ok (readable_text parse html), record_event (EvCall (Content page) (Ok html)) w)
    | Throw e => (Throw e, record_event (EvCall (Content page) (Throw e)) w)
    end.
Proof.
  unfold extractReadableContent. rewrite run_mbind, run_await.
  by destruct (answer o _ (trace w) (Content page)).
Qed.

(** The article extractor, run on a page whose three reads succeed. *)
Lemma run_extractEnhancedArticle parse o page w html article html2 metaTags :
  let w1 := record_event (EvCall (Content page) (Ok html)) w in
  let w2 := record_event (EvCall (Content page) (Ok html2)) w1 in
  answer o _ (trace w) (Content page) = Ok html →
  parse html = Some article →
  answer o _ (trace w1) (Content page) = Ok html2 →
  answer o _ (trace w2) (MetaElements page) = Ok metaTags →
  (run o (extractEnhancedArticle parse page) w).1 =
    Ok ("Title: " +:+ title article +:+ nl +:+ nl
        +:+ author_section article
        +:+ "Content:" +:+ nl +:+ readable_text parse html2
        +:+ nl +:+ nl +:+ "Metadata:"
        +:+ concat_lines (meta_line <$> listing (collect_meta metaTags) relevantMetaTags)).
Proof.
  intros w1 w2 H1 Hparse H2 H3.
  unfold extractEnhancedArticle. rewrite run_mbind, run_await, H1, Hparse.
  rewrite run_mbind, run_extractReadableContent. fold w1. rewrite H2.
  rewrite run_mbind, run_await. fold w2. rewrite H3.
  rewrite run_mret. simpl fst. f_equal.
  etrans; [exact (foldl_add_meta_line (collect_meta metaTags) _ relevantMetaTags)|].
  unfold author_section.
  destruct (byline article) as [b|]; simpl.
  - destruct (truthy_str b); simpl; by rewrite !str_app_assoc.
  - by rewrite !str_app_assoc.
Qed.

(** C8: when the readability pass finds no article in the page's HTML, the
    text extractor returns the empty string; it does not throw. *)
Theorem extractReadableContent_no_article parse o page w html :
  answer o _ (trace w) (Content page) = Ok html →
  parse html = None →
  (run o (extractReadableContent parse page) w).1 = Ok "".
Proof.
  intros H1 Hparse. rewrite run_extractReadableContent, H1.
  unfold readable_text. by rewrite Hparse.
Qed.


(** C10: on a page in which the readability pass finds an article, the
    output of the article extractor contains the header [Metadata:], and
    when no meta element carries one of the four names the output ends with
    that header. *)
Theorem extractEnhancedArticle_metadata_header parse o page w html article html2 metaTags :
  let w1 := record_event (EvCall (Content page) (Ok html)) w in
  let w2 := record_event (EvCall (Content page) (Ok html2)) w1 in
  answer o _ (trace w) (Content page) = Ok html →
  parse html = Some article →
  answer o _ (trace w1) (Content page) = Ok html2 →
  answer o _ (trace w2) (MetaElements page) = Ok metaTags →
  ∃ before after,
    (run o (extractEnhancedArticle parse page) w).1 =
      Ok (before +:+ "Metadata:" +:+ after)
    ∧ ((∀ tag v, tag ∈ relevantMetaTags → ¬ on_page metaTags tag v) → after = "").
Proof.
  intros w1 w2 H1 Hparse H2 H3.
  exists ("Title: " +:+ title article +:+ nl +:+ nl +:+ author_section article
          +:+ "Content:" +:+ nl +:+ readable_text parse html2 +:+ nl +:+ nl),
         (concat_lines (meta_line <$> listing (collect_meta metaTags) relevantMetaTags)).
  split.
  - rewrite (run_extractEnhancedArticle parse o page w html article html2 metaTags)
      by done.
    by rewrite !str_app_assoc.
  - intros Hnone.
    destruct (listing (collect_meta metaTags) relevantMetaTags) as [|[tag v] l] eqn:Hl;
      [done|].
    assert ((tag, v) ∈ listing (collect_meta metaTags) relevantMetaTags) as Hin
      by (rewrite Hl; by left).
    apply elem_of_listing in Hin as (Htag & Hv & _).
    apply collect_meta_sound in Hv as [_ Hpage]. by destruct (Hnone tag v).
Qed.

(** ** The request handler *)

Lemma footprint_extractReadableContent parse page :
  footprint reads_page no_effect (extractReadableContent parse page).
Proof. unfold extractReadableContent. footprint_auto. Qed.

Lemma footprint_dispatch parse toBase64 mode page :
  footprint reads_page no_effect (dispatch parse toBase64 mode page).
Proof.
  pose proof (footprint_extractReadableContent parse page) as Htext.
  unfold dispatch.
  destruct mode as [m|]; [|done].
  repeat case_match; try done;
    unfold takeScreenshot, getPageSource, getPrintVersion, extractEnhancedArticle;
    footprint_auto.
  case_match; footprint_auto.
Qed.

Lemma within_navigates e :
  event_within navigates no_effect e = true →
  failed_write e = false ∧ opened_page e = None ∧ closed_page e = None
  ∧ is_close_browser e = false ∧ is_call e = true.
Proof. destruct e as [X c r|r]; [destruct c|]; simpl; try done; by destruct r. Qed.

Lemma run_attempt {X} o (c : Eff (result X)) w :
  run o (attempt c) w = perform o c w.
Proof. unfold attempt. simpl. by destruct (perform o c w). Qed.

(** [logScrape]: the statements on the counters, which may throw, then the
    write of the stats file. *)
Lemma run_logScrape o target key w :
  let out := increment o (trace w) (pristine w) (clock o (trace w)) target key
               (scrapeStats w) in
  let rm := answer o _ (trace w) Mkdir in
  let tr1 := (trace w ++ [EvCall Mkdir rm])%list in
  let rw := answer o _ tr1 (WriteFile (stats_of out)) in
  run o (logScrape target key) w =
    match completion out with
    | Throw e => (Throw e, incremented out w)
    | Ok _ =>
        (rw, {| scrapeStats := stats_of out; pristine := pristine w && untouched out;
                pageVar := pageVar w;
                trace := (tr1 ++ [EvCall (WriteFile (stats_of out)) rw])%list |})
    end.
Proof.
  cbv zeta. unfold logScrape.
  rewrite run_mbind, run_eff. cbn [perform fst snd].
  rewrite run_mbind, run_attempt. cbn [perform].
  destruct (completion _) as [[]|e]; [|done].
  unfold saveStats, ensureDataDir. simpl.
  by destruct (answer o _ (trace w) Mkdir) as [[]|e].
Qed.

(** What the handler does once its page is open: navigate, extract, record,
    reply. Either it throws before the stats file is touched (navigation or
    extraction failed, or the statements on the counters threw), or the
    counters are updated and the stats file written; the reply with the
    content is sent only if that write succeeds. *)
Lemma run_after_open parse toBase64 o target mode page w :
  let rest : Prog unit :=
    await (Goto page target);;
    result ← dispatch parse toBase64 mode page;
    logScrape target (mode_key mode);;
    send 200 (ContentBody result) in
  let r := (run o rest w).1 in
  let w' := (run o rest w).2 in
  pageVar w' = pageVar w
  ∧ ((∃ e nav,
        r = Throw e ∧ trace w' = (trace w ++ nav)%list
        ∧ Forall (λ ev, event_within navigates no_effect ev = true) nav
        ∧ not_recorded o (trace w ++ nav) target (mode_key mode) w w')
     ∨ (∃ nav content rm rw,
        Forall (λ ev, event_within navigates no_effect ev = true) nav
        ∧ recorded o (trace w ++ nav) target (mode_key mode) w w'
        ∧ trace w' =
            (trace w ++ nav ++
             [EvCall Mkdir rm; EvCall (WriteFile (scrapeStats w')) rw] ++
             match rw with
             | Ok _ => [EvReply {| status := 200; payload := ContentBody content |}]
             | Throw _ => []
             end)%list
        ∧ r = rw)).
Proof.
  intros rest r w'. subst r w' rest.
  rewrite run_mbind, run_await.
  set (rg := answer o _ (trace w) (Goto page target)).
  set (wg := record_event (EvCall (Goto page target) rg) w).
  destruct rg as [[]|e] eqn:Hrg; cbv beta iota; cbn [fst snd].
  2:{ split; [done|]. left. exists e, [EvCall (Goto page target) (Throw e)].
      split; [done|]. split; [done|]. split; [by repeat constructor|]. by left. }
  rewrite run_mbind.
  pose proof (run_footprint reads_page no_effect o
                (dispatch parse toBase64 mode page) wg
                (footprint_dispatch _ _ _ _)) as (Hev & Hst & Hpg).
  pose proof (run_trace o (dispatch parse toBase64 mode page) wg) as Htr.
  destruct (Hst (λ _ _ _, eq_refl)) as [Hst' Hpr]. clear Hst.
  specialize (Hpg (λ _, eq_refl)).
  set (nav := events_of o (dispatch parse toBase64 mode page) wg) in *.
  assert (Forall (λ ev, event_within navigates no_effect ev = true)
            (EvCall (Goto page target) (Ok tt) :: nav)) as Hnav.
  { constructor; [done|]. eapply Forall_impl; [exact Hev|].
    intros [X c rc|rc]; simpl; [|done]. by destruct c. }
  destruct (run o (dispatch parse toBase64 mode page) wg) as [[content|e] wd] eqn:Hd;
    simpl in Htr, Hst', Hpr, Hpg; cbv beta iota; cbn [fst snd].
  2:{ split; [done|]. left. exists e, (EvCall (Goto page target) (Ok tt) :: nav).
      rewrite Htr. subst wg. simpl. rewrite <- app_assoc.
      split; [done|]. split; [done|]. split; [done|]. by left. }
  rewrite run_mbind, run_logScrape. cbv beta iota zeta.
  rewrite Htr, Hst', Hpr, Hpg.
  assert (((trace w ++ [EvCall (Goto page target) (Ok tt)]) ++ nav)%list =
          (trace w ++ EvCall (Goto page target) (Ok tt) :: nav)%list) as ->
    by (by rewrite <- app_assoc).
  set (tr := (trace w ++ EvCall (Goto page target) (Ok tt) :: nav)%list).
  set (out := increment o tr (pristine w) (clock o tr) target (mode_key mode)
                (scrapeStats w)).
  destruct (completion out) as [[]|e] eqn:Hout.
  2:{ cbn [fst snd incremented pageVar trace]. rewrite Htr.
      split; [done|]. left. exists e, (EvCall (Goto page target) (Ok tt) :: nav).
      assert (e = TypeError) as -> by (destruct out; simpl in Hout; by simplify_eq).
      split; [done|]. split; [by rewrite <- app_assoc|]. split; [done|].
      unfold not_recorded. right. fold tr. fold out.
      cbn [incremented scrapeStats pristine]. by rewrite Hpr. }
  set (rm := answer o _ tr Mkdir).
  set (rw := answer o _ (tr ++ [EvCall Mkdir rm])%list (WriteFile (stats_of out))).
  destruct rw as [[]|e] eqn:Hrw; cbn [run send eff perform record_event fst snd
    scrapeStats pristine pageVar trace ret]; (split; [done|]); right;
    exists (EvCall (Goto page target) (Ok tt) :: nav), content, rm.
  - exists (Ok tt). split; [done|]. split; [by unfold recorded; fold tr; fold out|].
    split; [|done]. subst tr. rewrite <- !app_assoc. done.
  - exists (Throw e). split; [done|]. split; [by unfold recorded; fold tr; fold out|].
    split; [|done]. subst tr. rewrite <- !app_assoc. done.
Qed.

Lemma events_of_eq {A} o (p : Prog A) w evs :
  trace (run o p w).2 = (trace w ++ evs)%list → events_of o p w = evs.
Proof. rewrite run_trace. apply app_inv_head. Qed.

(** The [finally] block of the handler. *)
Lemma run_finally_block o w :
  run o (page ← eff GetPage;
         match page with
         | Some page => try_catch (await (ClosePage page)) (λ _, mret tt)
         | None => mret tt
         end) w =
    match pageVar w with
    | Some p =>
        (Ok tt, record_event (EvCall (ClosePage p) (answer o _ (trace w) (ClosePage p))) w)
    | None => (Ok tt, w)
    end.
Proof.
  rewrite run_mbind, run_eff. cbn [perform fst snd].
  destruct (pageVar w) as [p|]; [|done].
  rewrite run_try_catch, run_await.
  by destruct (answer o _ (trace w) (ClosePage p)) as [[]|e].
Qed.

Lemma run_send o code body w :
  run o (send code body) w =
    (Ok tt, record_event (EvReply {| status := code; payload := body |}) w).
Proof. reflexivity. Qed.

(** The handler destructures a body that is present, and goes on. *)
Lemma scrape_Some parse toBase64 request :
  scrape parse toBase64 (Some request) =
    if negb (truthy_ostr (url request)) then
      send 400 (ErrorBody "URL is required")
    else
      let target := default "" (url request) in
      eff (SetPage None);;
      finally
        (try_catch
           (browser ← await GetBrowser;
            page ← await (NewPage browser);
            eff (SetPage (Some page));;
            await (Goto page target);;
            result ← dispatch parse toBase64 (mode request) page;
            logScrape target (mode_key (mode request));;
            send 200 (ContentBody result))
           (λ error,
              send 500 (ErrorBody "An error occurred while scraping the website")))
        (page ← eff GetPage;
         match page with
         | Some page => try_catch (await (ClosePage page)) (λ _, mret tt)
         | None => mret tt
         end).
Proof. reflexivity. Qed.

(** Without a body the handler throws at once. *)
Lemma run_scrape_None parse toBase64 o w :
  run o (scrape parse toBase64 None) w = (Throw TypeError, w).
Proof. reflexivity. Qed.

(** The four ways a request with a url runs through the handler: the browser
    is not obtained; the page is not opened; navigation, extraction or the
    statements on the counters throw; or the counters are updated, and the
    reply depends on the write of the stats file. *)
Lemma run_scrape parse toBase64 o request target w :
  url request = Some target → target ≠ "" →
  let evs := events_of o (scrape parse toBase64 (Some request)) w in
  let w' := (run o (scrape parse toBase64 (Some request)) w).2 in
  let key := mode_key (mode request) in
  (∃ e,
     evs = [EvCall GetBrowser (Throw e); EvReply generic_failure]
     ∧ scrapeStats w' = scrapeStats w ∧ pristine w' = pristine w)
  ∨ (∃ b e,
     evs = [EvCall GetBrowser (Ok b); EvCall (NewPage b) (Throw e);
            EvReply generic_failure]
     ∧ scrapeStats w' = scrapeStats w ∧ pristine w' = pristine w)
  ∨ (∃ b p nav rc,
     Forall (λ ev, event_within navigates no_effect ev = true) nav
     ∧ not_recorded o
         (trace w ++ [EvCall GetBrowser (Ok b); EvCall (NewPage b) (Ok p)] ++ nav)%list
         target key w w'
     ∧ evs = ([EvCall GetBrowser (Ok b); EvCall (NewPage b) (Ok p)] ++ nav ++
              [EvReply generic_failure; EvCall (ClosePage p) rc])%list)
  ∨ (∃ b p nav content rm rw rc,
     Forall (λ ev, event_within navigates no_effect ev = true) nav
     ∧ recorded o
         (trace w ++ [EvCall GetBrowser (Ok b); EvCall (NewPage b) (Ok p)] ++ nav)%list
         target key w w'
     ∧ evs = ([EvCall GetBrowser (Ok b); EvCall (NewPage b) (Ok p)] ++ nav ++
              [EvCall Mkdir rm; EvCall (WriteFile (scrapeStats w')) rw;
               EvReply match rw with
                       | Ok _ => {| status := 200; payload := ContentBody content |}
                       | Throw _ => generic_failure
                       end;
               EvCall (ClosePage p) rc])%list).
Proof.
  intros Hurl Htarget evs w' key. subst evs w' key. unfold events_of.
  rewrite scrape_Some, Hurl.
  assert (truthy_ostr (Some target) = true) as -> by (by destruct target).
  cbn [negb default id]. unfold id. cbv zeta.
  rewrite run_mbind, run_eff. cbn [perform fst snd].
  set (w0 := {| scrapeStats := scrapeStats w; pristine := pristine w; pageVar := None;
                trace := trace w |}).
  rewrite run_finally, run_try_catch, run_mbind, run_await.
  destruct (answer o _ (trace w0) GetBrowser) as [b|e] eqn:Hb.
  2:{ left. exists e. cbn. rewrite <- !app_assoc. by rewrite drop_app_length. }
  rewrite run_mbind, run_await.
  set (w1 := record_event (EvCall GetBrowser (Ok b)) w0).
  destruct (answer o _ (trace w1) (NewPage b)) as [p|e] eqn:Hp.
  2:{ right; left. exists b, e. cbn. rewrite <- !app_assoc. by rewrite drop_app_length. }
  right; right.
  rewrite run_mbind, run_eff. cbn [perform fst snd].
  set (w2 := {| scrapeStats := _; pristine := _; pageVar := Some p; trace := _ |}).
  pose proof (run_after_open parse toBase64 o target (mode request) p w2) as Hrest.
  cbv zeta in Hrest.
  match type of Hrest with
  | context [run o ?rest w2] => destruct (run o rest w2) as [r w3] eqn:Hrun
  end.
  cbn [fst snd] in Hrest.
  assert (∀ nav, (trace w2 ++ nav)%list =
                 (trace w ++ [EvCall GetBrowser (Ok b); EvCall (NewPage b) (Ok p)] ++ nav)%list)
    as Hpre.
  { intros nav. cbn [w2 w1 w0 trace record_event]. by rewrite <- !app_assoc. }
  destruct Hrest as [Hpg [(e & nav & -> & Htr & Hnav & Hnr)
                         | (nav & content & rm & rw & Hnav & Hrec & Htr & ->)]].
  - left. exists b, p, nav.
    rewrite run_send, run_finally_block. cbn [record_event pageVar].
    rewrite Hpg. cbn [w2 pageVar]. eexists. split; [done|].
    cbn [snd scrapeStats pristine trace record_event].
    split; [by rewrite Hpre in Hnr|].
    rewrite Htr. cbn [w2 w1 w0 trace record_event].
    rewrite <- !app_assoc. by rewrite drop_app_length.
  - right. exists b, p, nav, content, rm, rw.
    destruct rw as [[]|e].
    + rewrite run_finally_block. rewrite Hpg. cbn [w2 pageVar]. eexists.
      split; [done|]. cbn [snd scrapeStats pristine trace record_event].
      split; [by rewrite Hpre in Hrec|].
      rewrite Htr. cbn [w2 w1 w0 trace record_event].
      rewrite <- !app_assoc. by rewrite drop_app_length.
    + rewrite run_send, run_finally_block. cbn [record_event pageVar].
      rewrite Hpg. cbn [w2 pageVar]. eexists.
      split; [done|]. cbn [snd scrapeStats pristine trace record_event].
      split; [by rewrite Hpre in Hrec|].
      rewrite Htr. cbn [w2 w1 w0 trace record_event].
      rewrite <- !app_assoc. by rewrite drop_app_length.
Qed.

(** ** The usage counter *)

Lemma has_dash_app s1 s2 : has_dash (s1 +:+ "-" +:+ s2) = true.
Proof.
  induction s1 as [|c s1 IH]; [done|]. rewrite str_app_cons. cbn [has_dash].
  rewrite IH. by destruct (Ascii.eqb c "-").
Qed.

Lemma inherited_no_dash k : Js.inherited k = true → has_dash k = false.
Proof.
  unfold Js.inherited, Js.prototype_members. intros H%bool_decide_eq_true.
  rewrite !elem_of_cons, elem_of_nil in H.
  repeat (destruct H as [->|H]; [done|]). done.
Qed.

(** The month key is never the name of an inherited member. *)
Lemma getCurrentMonth_plain date : Js.inherited (getCurrentMonth date) = false.
Proof.
  destruct (Js.inherited (getCurrentMonth date)) eqn:H; [|done].
  apply inherited_no_dash in H. unfold getCurrentMonth in H.
  by rewrite has_dash_app in H.
Qed.

Lemma inherited_proto k : Js.inherited k = false → k ≠ "__proto__".
Proof. by intros H ->. Qed.

Lemma get_plain {A} (o : gmap string A) k :
  Js.inherited k = false →
  Js.get o k = match o !! k with Some a => Js.Own a | None => Js.Undefined end.
Proof. intros H. unfold Js.get. by rewrite H. Qed.

Lemma set_plain {A} (o : gmap string A) k v :
  Js.inherited k = false → Js.set k v o = <[k := v]> o.
Proof.
  intros H%inherited_proto. unfold Js.set. by rewrite bool_decide_eq_false_2.
Qed.

(** Doubles hold the integers up to 2^53 exactly. *)
Lemma to_double_safe x : (- 2 ^ 53 ≤ x ≤ 2 ^ 53)%Z → Js.to_double x = x.
Proof.
  intros Hx. unfold Js.to_double.
  destruct (Z.ltb_spec (Z.abs x) (2 ^ 53)) as [_|Habs]; [done|].
  assert (x = 2 ^ 53 ∨ x = - 2 ^ 53)%Z as [->| ->] by lia; by vm_compute.
Qed.

Lemma to_double_pos x : (0 < x)%Z → (0 < Js.to_double x)%Z.
Proof.
  intros Hx. unfold Js.to_double.
  destruct (Z.ltb_spec (Z.abs x) (2 ^ 53)) as [_|Habs]; [done|].
  rewrite Z.abs_eq, Z.sgn_pos in * by lia.
  assert (53 ≤ Z.log2 x)%Z as Hlog.
  { rewrite <- (Z.log2_pow2 53) by lia. by apply Z.log2_le_mono. }
  set (e := (Z.log2 x - 52)%Z).
  assert (0 < 2 ^ e)%Z as Hpow by (apply Z.pow_pos_nonneg; lia).
  assert (2 ^ e ≤ x)%Z as Hle.
  { trans (2 ^ Z.log2 x)%Z; [apply Z.pow_le_mono_r; lia|].
    apply Z.log2_spec. lia. }
  assert (0 < x / 2 ^ e)%Z as Hq by (by apply Z.div_str_pos).
  destruct (_ || _); nia.
Qed.

Lemma bump_mode_same mode o :
  Js.inherited mode = false →
  bump_mode mode o !! mode = Some (Js.succ (Js.Num (base (o !! mode)))).
Proof.
  intros H. unfold bump_mode. rewrite (get_plain o) by done.
  destruct (o !! mode) as [[z|]|] eqn:Ho; simpl.
  - destruct (Z.eqb_spec z 0) as [->|Hz]; simpl.
    + rewrite !set_plain, get_plain by done.
      by rewrite !lookup_insert_eq.
    + rewrite get_plain, Ho by done. simpl.
      rewrite set_plain by done. by rewrite lookup_insert_eq.
  - rewrite !set_plain, get_plain by done.
    by rewrite !lookup_insert_eq.
  - rewrite !set_plain, get_plain by done.
    by rewrite !lookup_insert_eq.
Qed.

Lemma set_other {A} (o : gmap string A) k k' v :
  k' ≠ k → Js.set k' v o !! k = o !! k.
Proof.
  intros Hne. unfold Js.set.
  case_bool_decide; [destruct (o !! k')|]; by rewrite ?lookup_insert_ne.
Qed.

Lemma bump_mode_other mode mode' o :
  mode' ≠ mode → bump_mode mode' o !! mode = o !! mode.
Proof.
  intros Hne. unfold bump_mode. rewrite set_other by done.
  destruct (Js.truthy_num (Js.get o mode')); [done|]. by rewrite set_other.
Qed.

(** Whatever the outcome, [scrapeStats] afterwards differs from before in
    the month of the scrape only, and there in the object of its url only. *)
Lemma stats_of_logScrape_sync date url mode st :
  let byUrl := default ∅ (st !! getCurrentMonth date) in
  stats_of (logScrape_sync date url mode st) =
    <[getCurrentMonth date :=
        match Js.get byUrl url with
        | Js.Own byMode => <[url := bump_mode mode byMode]> byUrl
        | Js.Undefined => <[url := bump_mode mode ∅]> byUrl
        | Js.Inherited => byUrl
        end]> st.
Proof.
  cbv zeta. unfold logScrape_sync.
  destruct (Js.get _ url); [done| |done]. by destruct (Js.write_on_builtin url mode).
Qed.

(** A url that names no inherited member is recorded in [scrapeStats]. *)
Lemma logScrape_sync_plain date url mode st :
  Js.inherited url = false →
  logScrape_sync date url mode st = Recorded (stats_of (logScrape_sync date url mode st)).
Proof.
  intros Hu. unfold logScrape_sync. rewrite get_plain by done.
  by destruct (_ !! url).
Qed.

(** One recorded scrape adds one to the count of its own triple, provided
    neither its url nor its mode is the name of an inherited member. *)
Lemma count_logScrape_sync_same date url mode st :
  Js.inherited url = false → Js.inherited mode = false →
  count (stats_of (logScrape_sync date url mode st)) (getCurrentMonth date) url mode =
    Some (Js.succ (Js.Num (base (count st (getCurrentMonth date) url mode)))).
Proof.
  intros Hu Hk. rewrite stats_of_logScrape_sync. cbv zeta. unfold count.
  rewrite lookup_insert_eq.
  destruct (st !! getCurrentMonth date) as [byUrl|] eqn:Hst; cbn [default]; unfold id.
  - rewrite (get_plain byUrl) by done.
    destruct (byUrl !! url) as [byMode|] eqn:Hby;
      rewrite lookup_insert_eq; by rewrite bump_mode_same.
  - rewrite (get_plain ∅) by done. rewrite lookup_empty.
    rewrite lookup_insert_eq. by rewrite bump_mode_same.
Qed.

(** It leaves the count of every other triple alone, whatever its keys. *)
Lemma count_logScrape_sync_other month url mode date' url' mode' st :
  (getCurrentMonth date', url', mode') ≠ (month, url, mode) →
  count (stats_of (logScrape_sync date' url' mode' st)) month url mode =
    count st month url mode.
Proof.
  intros Hne. rewrite stats_of_logScrape_sync. cbv zeta. unfold count.
  destruct (decide (getCurrentMonth date' = month)) as [<-|Hm].
  2:{ by rewrite lookup_insert_ne. }
  rewrite lookup_insert_eq. unfold Js.get.
  destruct (st !! getCurrentMonth date') as [byUrl|] eqn:Hst; cbn [default]; unfold id.
  - destruct (decide (url' = url)) as [->|Hu].
    + assert (mode' ≠ mode) by congruence.
      destruct (byUrl !! url) as [byMode|] eqn:Hby.
      * rewrite lookup_insert_eq. by rewrite bump_mode_other.
      * destruct (Js.inherited url); rewrite ?lookup_insert_eq, ?Hby; [done|].
        by rewrite bump_mode_other.
    + destruct (byUrl !! url') as [byMode|] eqn:Hby.
      * by rewrite lookup_insert_ne.
      * destruct (Js.inherited url'); [done|]. by rewrite lookup_insert_ne.
  - rewrite lookup_empty.
    destruct (Js.inherited url'); [by rewrite lookup_empty|].
    destruct (decide (url' = url)) as [->|Hu].
    + rewrite lookup_insert_eq. rewrite bump_mode_other by congruence. done.
    + by rewrite lookup_insert_ne.
Qed.

(** Counter correctness for plain keys, within the integers a double holds
    exactly: after a month's scrapes, the count of a triple is its count
    before plus the number of its scrapes. *)
Lemma count_log_all date url mode scrapes st :
  Forall (λ s, Js.inherited s.1 = false) scrapes →
  Js.inherited url = false → Js.inherited mode = false →
  (- 2 ^ 53 ≤ base (count st (getCurrentMonth date) url mode))%Z →
  (base (count st (getCurrentMonth date) url mode)
   + Z.of_nat (occurrences (url, mode) scrapes) ≤ 2 ^ 53)%Z →
  ∃ st', log_all date scrapes st = Some st'
    ∧ count st' (getCurrentMonth date) url mode =
        match occurrences (url, mode) scrapes with
        | 0 => count st (getCurrentMonth date) url mode
        | S n => Some (Js.Num (base (count st (getCurrentMonth date) url mode)
                               + Z.of_nat (S n)))
        end.
Proof.
  intros Hplain Hu Hk. revert st.
  induction Hplain as [|[u k] scrapes Hs _ IH]; intros st Hlo Hhi; [by exists st|].
  cbn [log_all fst snd] in *. rewrite (logScrape_sync_plain date u k st) by done.
  set (st1 := stats_of (logScrape_sync date u k st)).
  unfold occurrences in *. rewrite filter_cons in *. case_decide as Heq.
  - simplify_eq. cbn [length] in *.
    assert (count st1 (getCurrentMonth date) url mode =
            Some (Js.Num (base (count st (getCurrentMonth date) url mode) + 1))) as Hc.
    { subst st1. rewrite count_logScrape_sync_same by done. cbn [Js.succ].
      rewrite to_double_safe by lia. done. }
    destruct (IH st1) as (st' & Hlog & Hcount).
    { rewrite Hc. cbn [base]. lia. }
    { rewrite Hc. cbn [base]. lia. }
    exists st'. split; [done|]. rewrite Hcount, Hc. cbn [base].
    destruct (length _); f_equal; f_equal; lia.
  - assert (count st1 (getCurrentMonth date) url mode =
            count st (getCurrentMonth date) url mode) as Hc.
    { subst st1. apply count_logScrape_sync_other. congruence. }
    destruct (IH st1) as (st' & Hlog & Hcount); [by rewrite Hc..|].
    exists st'. split; [done|]. by rewrite Hcount, Hc.
Qed.

(** ** The handler: theorems *)

Lemma navigation_is_inert nav :
  Forall (λ ev, event_within navigates no_effect ev = true) nav →
  omap opened_page nav = [] ∧ existsb failed_write nav = false
  ∧ replies nav = [] ∧ Forall (λ ev, is_close_browser ev = false) nav.
Proof.
  induction 1 as [|ev nav Hev _ (IH1 & IH2 & IH3 & IH4)]; [done|].
  apply within_navigates in Hev as (Hw & Ho & _ & Hb & Hc).
  unfold replies in *. cbn [omap list_omap existsb]. rewrite Ho, Hw, IH1, IH2.
  destruct ev; [|done]. repeat split; try done. by constructor.
Qed.

(** C2 (defect): one successful scrape whose mode is [toString] (an
    unrecognised mode, served by the text extractor) leaves NaN as the count
    of its triple, not 1: the object literal inherits a member of that name,
    so the count is never initialised and [++] is applied to a function. A
    second scrape of the same pair then counts 1, not 2. *)
Theorem logScrape_miscounts_inherited_mode :
  let o := sample_oracle "<html>doc</html>" [] (Ok tt) in
  let request := sample_request (Some "toString") in
  let w1 := (run o (scrape sample_parse id (Some request)) empty_world).2 in
  let w2 := (run o (scrape sample_parse id (Some request)) w1).2 in
  replies (trace w1) = [ {| status := 200; payload := ContentBody "Hello World" |} ]
  ∧ count (scrapeStats w1) "2024-05" "https://example.com/" "toString" = Some Js.NaN
  ∧ count (scrapeStats w2) "2024-05" "https://example.com/" "toString" = Some (Js.Num 1).
Proof. repeat split; vm_compute; reflexivity. Qed.

(** C6 (defect): a request without a body lacks a url, yet it is not
    answered with status 400: [request.body] is destructured before the test
    of [url], and outside the [try]. The handler throws a TypeError, sends no
    reply and does nothing else; the framework turns the rejection into its
    own 500 response. *)
Theorem scrape_without_body parse toBase64 o w :
  run o (scrape parse toBase64 None) w = (Throw TypeError, w)
  ∧ events_of o (scrape parse toBase64 None) w = [].
Proof.
  split; [apply run_scrape_None|].
  apply events_of_eq. rewrite run_scrape_None. cbn [snd]. by rewrite app_nil_r.
Qed.

(** C7: for a mode that is omitted or is none of text, article, screenshot,
    source, print, the handler's switch runs the text extractor, as it does
    for the mode text; against every environment the two yield the same. *)
Theorem dispatch_falls_back_to_text parse toBase64 mode page :
  mode ∉ recognised_modes →
  dispatch parse toBase64 mode page = extractReadableContent parse page
  ∧ dispatch parse toBase64 (Some "text") page = extractReadableContent parse page
  ∧ ∀ o w, run o (dispatch parse toBase64 mode page) w =
           run o (dispatch parse toBase64 (Some "text") page) w.
Proof.
  intros Hmode.
  assert (dispatch parse toBase64 mode page = extractReadableContent parse page) as H.
  { destruct mode as [m|]; [|done]. unfold dispatch.
    unfold recognised_modes in Hmode. rewrite !not_elem_of_cons in Hmode.
    destruct Hmode as (_ & Ha & Hs & Hsrc & Hp & _).
    repeat (case_match; [match goal with
                         | H : String.eqb _ _ = true |- _ =>
                             apply String.eqb_eq in H; congruence
                         end|]).
    done. }
  split; [done|]. split; [done|]. intros o w. by rewrite H.
Qed.

Lemma no_body_events parse toBase64 o w :
  events_of o (scrape parse toBase64 None) w = [].
Proof. apply events_of_eq. rewrite run_scrape_None. cbn [snd]. by rewrite app_nil_r. Qed.

Lemma falsy_url_run parse toBase64 o request w :
  truthy_ostr (url request) = false →
  run o (scrape parse toBase64 (Some request)) w =
    (Ok tt, record_event
              (EvReply {| status := 400; payload := ErrorBody "URL is required" |}) w).
Proof. intros H. rewrite scrape_Some. by rewrite H. Qed.

Lemma falsy_url_events parse toBase64 o request w :
  truthy_ostr (url request) = false →
  events_of o (scrape parse toBase64 (Some request)) w =
    [ EvReply {| status := 400; payload := ErrorBody "URL is required" |} ].
Proof. intros H. apply events_of_eq. by rewrite falsy_url_run. Qed.

Lemma truthy_url request :
  truthy_ostr (url request) = true →
  ∃ target, url request = Some target ∧ target ≠ "".
Proof. apply truthy_ostr_Some. Qed.

(** C5: whenever the handler has opened a page, the last thing it does is
    close that page, whether the scrape succeeded or failed; and it never
    closes the browser. *)
Theorem scrape_closes_its_page parse toBase64 o body w :
  let evs := events_of o (scrape parse toBase64 body) w in
  (∀ page, page ∈ omap opened_page evs →
     ∃ before rc, evs = (before ++ [EvCall (ClosePage page) rc])%list)
  ∧ Forall (λ ev, is_close_browser ev = false) evs.
Proof.
  intros evs. subst evs. destruct body as [request|].
  2:{ rewrite no_body_events. split; [|by constructor].
      intros page Hin. cbn in Hin. by apply elem_of_nil in Hin. }
  destruct (truthy_ostr (url request)) eqn:Hurl.
  2:{ rewrite falsy_url_events by done. split; [|by repeat constructor].
      intros page Hin. cbn in Hin. by apply elem_of_nil in Hin. }
  apply truthy_url in Hurl as (target & Hurl & Htarget).
  destruct (run_scrape parse toBase64 o request target w Hurl Htarget)
    as [(e & -> & _) | [(b & e & -> & _)
       | [(b & p & nav & rc & Hnav & _ & ->)
         | (b & p & nav & content & rm & rw & rc & Hnav & _ & ->)]]].
  - split; [|by repeat constructor].
    intros page Hin. cbn in Hin. by apply elem_of_nil in Hin.
  - split; [|by repeat constructor].
    intros page Hin. cbn in Hin. by apply elem_of_nil in Hin.
  - apply navigation_is_inert in Hnav as (Hopen & _ & _ & Hbrowser). split.
    + intros page Hin. rewrite !omap_app, Hopen in Hin. cbn in Hin.
      apply list_elem_of_singleton in Hin as ->.
      exists ([EvCall GetBrowser (Ok b); EvCall (NewPage b) (Ok p)] ++ nav ++
              [EvReply generic_failure])%list, rc.
      by rewrite <- !app_assoc.
    + repeat (apply Forall_app; split); try done; by repeat constructor.
  - apply navigation_is_inert in Hnav as (Hopen & _ & _ & Hbrowser). split.
    + intros page Hin. rewrite !omap_app, Hopen in Hin. cbn in Hin.
      apply list_elem_of_singleton in Hin as ->.
      eexists ([EvCall GetBrowser (Ok b); EvCall (NewPage b) (Ok p)] ++ nav ++
               [EvCall Mkdir rm; EvCall (WriteFile _) rw; EvReply _])%list, rc.
      by rewrite <- !app_assoc.
    + repeat (apply Forall_app; split); try done; by repeat constructor.
Qed.

(** C9 (amended): when the write of the stats file fails, the client gets
    the generic 500 reply and nothing else, not the extracted content, and
    the counters in memory keep what [logScrape] did to them at the date the
    clock showed when it ran, just before the directory was created. While
    the built-in objects are untouched that is the result of
    [logScrape_sync]: for a url and a mode that name no inherited member,
    and a previous count that a double can still increment, the count of
    the triple of that month is one above its previous value. *)
Theorem failed_stats_write_keeps_count parse toBase64 o body w :
  let evs := events_of o (scrape parse toBase64 body) w in
  let w' := (run o (scrape parse toBase64 body) w).2 in
  existsb failed_write evs = true →
  ∃ request target before rm e after,
    body = Some request ∧ url request = Some target
    ∧ evs = (before ++
             [ EvCall Mkdir rm; EvCall (WriteFile (scrapeStats w')) (Throw e);
               EvReply generic_failure ] ++ after)%list
    ∧ replies evs = [generic_failure]
    ∧ (pristine w = true →
       let date := clock o (trace w ++ before) in
       let key := mode_key (mode request) in
       let previous := base (count (scrapeStats w) (getCurrentMonth date) target key) in
       scrapeStats w' = stats_of (logScrape_sync date target key (scrapeStats w))
       ∧ (Js.inherited target = false → Js.inherited key = false →
          (- 2 ^ 53 ≤ previous < 2 ^ 53)%Z →
          count (scrapeStats w') (getCurrentMonth date) target key =
            Some (Js.Num (previous + 1)))).
Proof.
  intros evs w'. subst evs w'. destruct body as [request|].
  2:{ by rewrite no_body_events. }
  destruct (truthy_ostr (url request)) eqn:Hurl.
  2:{ by rewrite falsy_url_events by done. }
  apply truthy_url in Hurl as (target & Hurl & Htarget).
  destruct (run_scrape parse toBase64 o request target w Hurl Htarget)
    as [(e & -> & _) | [(b & e & -> & _)
       | [(b & p & nav & rc & Hnav & _ & ->)
         | (b & p & nav & content & rm & rw & rc & Hnav & Hrec & ->)]]];
    try done.
  - apply navigation_is_inert in Hnav as (_ & Hwrite & _ & _).
    rewrite !existsb_app, Hwrite. done.
  - apply navigation_is_inert in Hnav as (_ & Hwrite & Hrep & _).
    rewrite !existsb_app, Hwrite. cbn [existsb failed_write orb].
    destruct rw as [[]|e]; [done|]. intros _.
    exists request, target,
      ([EvCall GetBrowser (Ok b); EvCall (NewPage b) (Ok p)] ++ nav)%list, rm, e,
      [EvCall (ClosePage p) rc].
    split; [done|]. split; [done|]. split; [by rewrite <- !app_assoc|].
    split; [unfold replies in *; by rewrite !omap_app, Hrep|].
    intros Hpristine. cbv zeta.
    unfold recorded, increment in Hrec. rewrite Hpristine in Hrec.
    destruct Hrec as (_ & Hst & _). split; [exact Hst|].
    intros Hu Hk Hrange. rewrite Hst.
    rewrite count_logScrape_sync_same by done. cbn [Js.succ].
    by rewrite to_double_safe by lia.
Qed.

(** C9 (counterexample): the count does not always end up incremented.
    With the count of the triple at 2^53 and a failing write of the stats
    file, the client gets the generic 500 reply and the count in memory is
    still 2^53: [++] cannot increment it. With the mode [toString] on empty
    counters (the defect of C2) the count in memory is NaN, and with the url
    [toString] the triple has no count at all: it went to the built-in
    function. *)
Lemma failed_stats_write_without_increment :
  let o := sample_oracle sample_html [] (Throw "EACCES") in
  let after (w : World) (request : ScrapeRequest) :=
    (run o (scrape sample_parse id (Some request)) w).2 in
  let failed (w : World) (request : ScrapeRequest) :=
    let evs := events_of o (scrape sample_parse id (Some request)) w in
    existsb failed_write evs = true ∧ replies evs = [generic_failure] in
  let by_mode := sample_request (Some "toString") in
  let by_url := {| url := Some "toString"; mode := Some "text" |} in
  (failed saturated_world (sample_request (Some "text"))
   ∧ count (scrapeStats saturated_world) "2024-05" "https://example.com/" "text" =
       Some (Js.Num (2 ^ 53))
   ∧ count (scrapeStats (after saturated_world (sample_request (Some "text"))))
       "2024-05" "https://example.com/" "text" = Some (Js.Num (2 ^ 53)))
  ∧ (failed empty_world by_mode
     ∧ count (scrapeStats (after empty_world by_mode))
         "2024-05" "https://example.com/" "toString" = Some Js.NaN)
  ∧ (failed empty_world by_url
     ∧ count (scrapeStats (after empty_world by_url)) "2024-05" "toString" "text" = None).
Proof. repeat split; vm_compute; reflexivity. Qed.

(** *** The API-key hook in front of the handler *)

Lemma post_scrape_authorised parse toBase64 API_KEY request :
  x_api_key request = Some API_KEY →
  post_scrape parse toBase64 API_KEY request = scrape parse toBase64 (body request).
Proof.
  intros Hkey. unfold post_scrape, preHandler.
  rewrite bool_decide_eq_true_2 by done. by destruct (String.eqb _ _).
Qed.

Lemma post_scrape_unauthorised parse toBase64 API_KEY request o w :
  target request ≠ "/" → x_api_key request ≠ Some API_KEY →
  events_of o (post_scrape parse toBase64 API_KEY request) w =
    [ EvReply {| status := 401; payload := ErrorBody "Unauthorized: Invalid API key" |} ]
  ∧ scrapeStats (run o (post_scrape parse toBase64 API_KEY request) w).2 = scrapeStats w.
Proof.
  intros Htarget Hkey. unfold post_scrape, preHandler.
  rewrite (proj2 (String.eqb_neq _ _)) by done.
  rewrite bool_decide_eq_false_2 by done.
  split; [|done]. by apply events_of_eq.
Qed.

(** ** Examples *)

Example getCurrentMonth_may :
  getCurrentMonth {| fullYear := 2024; monthIndex := 4 |} = "2024-05".
Proof. vm_compute. reflexivity. Qed.

Example getCurrentMonth_december :
  getCurrentMonth {| fullYear := 2023; monthIndex := 11 |} = "2023-12".
Proof. vm_compute. reflexivity. Qed.

Example trim_which_output :
  Session.trim ("/usr/bin/chromium" +:+ nl) = "/usr/bin/chromium".
Proof. vm_compute. reflexivity. Qed.

Example three_text_scrapes :
  (λ st, count st "2024-05" "https://a.example/" "text") <$>
    log_all may_2024
      [ ("https://a.example/", "text"); ("https://a.example/", "article");
        ("https://a.example/", "text"); ("https://b.example/", "text");
        ("https://a.example/", "text") ] ∅
  = Some (Some (Js.Num 3)).
Proof. vm_compute. reflexivity. Qed.

(** Beyond 2^53 a double holds every second integer only: [++] leaves 2^53
    as it is, and takes 2^53 + 2 to 2^53 + 4. *)
Example succ_beyond_safe_integers :
  Js.succ (Js.Num (2 ^ 53 - 1)) = Js.Num (2 ^ 53)
  ∧ Js.succ (Js.Num (2 ^ 53)) = Js.Num (2 ^ 53)
  ∧ Js.succ (Js.Num (2 ^ 53 + 2)) = Js.Num (2 ^ 53 + 4).
Proof. repeat split; vm_compute; reflexivity. Qed.

(** A no-break space and a line separator are trimmed as well. *)
Example trim_unicode_space :
  Session.trim (String (ascii_of_nat 194) (String (ascii_of_nat 160) "")
                +:+ "/usr/bin/chromium"
                +:+ String (ascii_of_nat 226) (String (ascii_of_nat 128)
                      (String (ascii_of_nat 168) "")) +:+ nl)
  = "/usr/bin/chromium".
Proof. vm_compute. reflexivity. Qed.

(** A url that names a built-in method: with the mode [length] the
    statements of [logScrape] throw, having created the month level; with a
    plain mode the count lands on the built-in function; a url [__proto__]
    puts the count on [Object.prototype]. *)
Example scrape_of_inherited_url :
  logScrape_sync may_2024 "toString" "length" ∅ = Raised {[ "2024-05" := ∅ ]}
  ∧ logScrape_sync may_2024 "toString" "text" ∅ = Spilled {[ "2024-05" := ∅ ]}
  ∧ logScrape_sync may_2024 "__proto__" "text" ∅ = Spilled {[ "2024-05" := ∅ ]}
  ∧ logScrape_sync may_2024 "__proto__" "__proto__" ∅ = Recorded {[ "2024-05" := ∅ ]}.
Proof. repeat split; vm_compute; reflexivity. Qed.

Example article_output :
  (run (sample_oracle sample_html sample_meta (Ok tt))
       (extractEnhancedArticle sample_parse 7) empty_world).1 =
    Ok ("Title: T" +:+ nl +:+ nl +:+ "Content:" +:+ nl +:+ "Hello World" +:+ nl +:+ nl
        +:+ "Metadata:" +:+ nl +:+ "description: D" +:+ nl +:+ "author: A").
Proof. vm_compute. reflexivity. Qed.

(** ** Instances *)

Lemma extractReadableContent_no_article_witness :
  let o := sample_oracle "" [] (Ok tt) in
  answer o _ (trace empty_world) (Content 7) = Ok ""
  ∧ sample_parse "" = None
  ∧ (run o (extractReadableContent sample_parse 7) empty_world).1 = Ok "".
Proof.
  intros o. split; [reflexivity|]. split; [reflexivity|].
  apply (extractReadableContent_no_article sample_parse o 7 empty_world "");
    reflexivity.
Defined.


Lemma extractEnhancedArticle_metadata_header_witness :
  let o := sample_oracle sample_html [] (Ok tt) in
  sample_parse sample_html = Some sample_article
  ∧ ∃ before after,
      (run o (extractEnhancedArticle sample_parse 7) empty_world).1 =
        Ok (before +:+ "Metadata:" +:+ after)
      ∧ ((∀ tag v, tag ∈ relevantMetaTags → ¬ on_page [] tag v) → after = "").
Proof.
  intros o. split; [reflexivity|].
  apply (extractEnhancedArticle_metadata_header sample_parse o 7 empty_world
           sample_html sample_article sample_html []); reflexivity.
Defined.

Lemma dispatch_falls_back_to_text_witness :
  (Some "toString" ∉ recognised_modes)
  ∧ dispatch sample_parse id (Some "toString") 7 = extractReadableContent sample_parse 7
  ∧ dispatch sample_parse id (Some "text") 7 = extractReadableContent sample_parse 7
  ∧ ∀ o w, run o (dispatch sample_parse id (Some "toString") 7) w =
           run o (dispatch sample_parse id (Some "text") 7) w.
Proof.
  assert (Some "toString" ∉ recognised_modes) as H.
  { unfold recognised_modes. rewrite !not_elem_of_cons. repeat split; try done.
    apply not_elem_of_nil. }
  split; [exact H|].
  exact (dispatch_falls_back_to_text sample_parse id (Some "toString") 7 H).
Defined.

Lemma scrape_closes_its_page_witness :
  let o := sample_oracle sample_html sample_meta (Ok tt) in
  let evs := events_of o (scrape sample_parse id (Some (sample_request (Some "article"))))
               empty_world in
  7 ∈ omap opened_page evs
  ∧ (∃ before rc, evs = (before ++ [EvCall (ClosePage 7) rc])%list)
  ∧ Forall (λ ev, is_close_browser ev = false) evs.
Proof.
  intros o evs.
  assert (7 ∈ omap opened_page evs) as H by (vm_compute; apply list_elem_of_here).
  split; [exact H|].
  destruct (scrape_closes_its_page sample_parse id o
              (Some (sample_request (Some "article"))) empty_world) as [Hclose Hbrowser].
  split; [exact (Hclose 7 H) | exact Hbrowser].
Defined.

Lemma failed_stats_write_keeps_count_witness :
  let o := sample_oracle sample_html sample_meta (Throw "EACCES") in
  let body := Some (sample_request (Some "text")) in
  let evs := events_of o (scrape sample_parse id body) empty_world in
  let w' := (run o (scrape sample_parse id body) empty_world).2 in
  existsb failed_write evs = true
  ∧ count (scrapeStats w') "2024-05" "https://example.com/" "text" = Some (Js.Num 1)
  ∧ ∃ request target before rm e after,
      body = Some request ∧ url request = Some target
      ∧ evs = (before ++
               [ EvCall Mkdir rm; EvCall (WriteFile (scrapeStats w')) (Throw e);
                 EvReply generic_failure ] ++ after)%list
      ∧ replies evs = [generic_failure]
      ∧ (pristine empty_world = true →
         let date := clock o (trace empty_world ++ before) in
         let key := mode_key (mode request) in
         let previous := base (count (scrapeStats empty_world) (getCurrentMonth date)
                                 target key) in
         scrapeStats w' =
           stats_of (logScrape_sync date target key (scrapeStats empty_world))
         ∧ (Js.inherited target = false → Js.inherited key = false →
            (- 2 ^ 53 ≤ previous < 2 ^ 53)%Z →
            count (scrapeStats w') (getCurrentMonth date) target key =
              Some (Js.Num (previous + 1)))).
Proof.
  intros o body evs w'.
  assert (existsb failed_write evs = true) as H by (vm_compute; reflexivity).
  split; [exact H|]. split; [vm_compute; reflexivity|].
  exact (failed_stats_write_keeps_count sample_parse id o body empty_world H).
Defined.

(** * Further properties of the code *)

(** ** [getBrowser]: the session under any interleaving *)

Module SessionInvariants.
Import Session.

Lemma step_sound ev s s' : sound s → step ev s = Some s' → sound s'.
Proof.
  intros [Hbp Haw] Hstep.
  destruct ev as [t | t [stdout | e] | q r | t]; simpl in Hstep.
  - destruct (callers s !! t) eqn:Ht; simplify_eq. split; [done|].
    intros u p. simpl. destruct (decide (t = u)) as [->|Hne].
    + rewrite lookup_insert_eq. destruct (browserPromise s) as [q|] eqn:Hq; [|done].
      intros [= <-]. destruct (Hbp q eq_refl) as (l & Hl & _).
      by eapply lookup_lt_Some.
    + rewrite lookup_insert_ne by done. apply Haw.
  - destruct (callers s !! t) as [[]|] eqn:Ht; simplify_eq. split; simpl.
    + intros q [= <-]. eexists. split; [by apply list_lookup_middle|]. done.
    + intros u p. rewrite length_app. simpl.
      destruct (decide (t = u)) as [->|Hne].
      * rewrite lookup_insert_eq. intros [= <-]. lia.
      * rewrite lookup_insert_ne by done. intros H%Haw. lia.
  - destruct (callers s !! t) as [[]|] eqn:Ht; simplify_eq. split; [done|].
    intros u p. simpl. destruct (decide (t = u)) as [->|Hne].
    + by rewrite lookup_insert_eq.
    + rewrite lookup_insert_ne by done. apply Haw.
  - destruct (launches s !! q) as [lq|] eqn:Hq; [|done].
    destruct (is_pending lq) eqn:Hpend; simplify_eq.
    assert (q < length (launches s)) by (by eapply lookup_lt_Some).
    split; simpl.
    + destruct r as [b|e]; [|done]. intros q' Hq'.
      destruct (Hbp q' Hq') as (l & Hl & Hrej).
      destruct (decide (q = q')) as [->|Hne].
      * rewrite list_lookup_insert_eq by done. eexists. split; [done|]. done.
      * rewrite list_lookup_insert_ne by done. eauto.
    + intros u p Hu. rewrite length_insert. by eapply Haw.
  - destruct (callers s !! t) as [[| p |]|] eqn:Ht; simplify_eq.
    destruct (settlement <$> launches s !! p) as [[]|]; simplify_eq;
      (split; [done|]); intros u p'; simpl;
      (destruct (decide (t = u)) as [->|Hne];
       [by rewrite lookup_insert_eq | rewrite lookup_insert_ne by done; apply Haw]).
Qed.

Lemma exec_sound evs s s' : sound s → exec evs s = Some s' → sound s'.
Proof.
  revert s. induction evs as [|ev evs IH]; intros s Hs Hexec; simpl in Hexec.
  - by simplify_eq.
  - destruct (step ev s) as [s1|] eqn:Hstep; [|done].
    eapply IH; [|done]. by eapply step_sound.
Qed.

(** X1: in every state the service can reach, [browserPromise] is null or
    holds a promise that exists and has not been rejected, and every caller
    that awaits holds an existing promise: a call of [getBrowser] never
    hands out an attempt that has already failed. *)
Theorem getBrowser_never_returns_failed_attempt evs s :
  exec evs initial = Some s →
  (∀ q, browserPromise s = Some q →
        ∃ l, launches s !! q = Some l ∧ ∀ e, settlement l ≠ Rejected e)
  ∧ (∀ t p, callers s !! t = Some (Awaiting p) → p < length (launches s)).
Proof.
  intros Hexec. apply (exec_sound evs initial s); [|done].
  split; [done|]. intros t p. simpl. by rewrite lookup_empty.
Qed.

Lemma not_resolving_insert s t c :
  ¬ resolving s → is_resolving c = false →
  ¬ map_Exists (λ _ c, is_resolving c = true) (<[t := c]> (callers s)).
Proof.
  intros Hs Hc [H|H]%map_Exists_insert_1; [congruence|done].
Qed.

Lemma resolving_caller s t : callers s !! t = Some ResolvingPath → resolving s.
Proof. intros Ht. by exists t, ResolvingPath. Qed.

Lemma browser_up_exec s0 p b evs s1 s' :
  browser_up s1 p b →
  launches s1 = launches s0 →
  (∀ t, callers s0 !! t = None →
        callers s1 !! t = None ∨ callers s1 !! t = Some (Awaiting p)
        ∨ callers s1 !! t = Some (Returned (Ok b))) →
  exec evs s1 = Some s' →
  browser_up s' p b ∧ launches s' = launches s0
  ∧ ∀ t, callers s0 !! t = None →
         callers s' !! t = None ∨ callers s' !! t = Some (Awaiting p)
         ∨ callers s' !! t = Some (Returned (Ok b)).
Proof.
  revert s1. induction evs as [|ev evs IH]; intros s1 Hup Hl Hnew Hexec;
    simpl in Hexec.
  { by simplify_eq. }
  destruct (step ev s1) as [s2|] eqn:Hstep; [|done].
  destruct Hup as (Hbp & Hful & Hpend & Hres).
  apply (IH s2); [| | |done];
    destruct ev as [t | t stdout | q r | t]; simpl in Hstep.
  - destruct (callers s1 !! t) eqn:Ht; simplify_eq. unfold getBrowser.
    rewrite Hbp. repeat split; try done. by apply not_resolving_insert.
  - destruct (callers s1 !! t) as [[]|] eqn:Ht; simplify_eq.
    by destruct Hres; eapply resolving_caller.
  - destruct (launches s1 !! q) as [l|] eqn:Hq; [|done].
    rewrite Forall_lookup in Hpend. rewrite (Hpend q l Hq) in Hstep. done.
  - destruct (callers s1 !! t) as [[| p' |]|] eqn:Ht; simplify_eq.
    destruct (settlement <$> launches s1 !! p') as [[]|]; simplify_eq;
      repeat split; try done; by apply not_resolving_insert.
  - destruct (callers s1 !! t) eqn:Ht; simplify_eq. done.
  - destruct (callers s1 !! t) as [[]|] eqn:Ht; simplify_eq.
    by destruct Hres; eapply resolving_caller.
  - destruct (launches s1 !! q) as [l|] eqn:Hq; [|done].
    rewrite Forall_lookup in Hpend. rewrite (Hpend q l Hq) in Hstep. done.
  - destruct (callers s1 !! t) as [[| p' |]|] eqn:Ht; simplify_eq.
    destruct (settlement <$> launches s1 !! p') as [[]|]; simplify_eq; done.
  - destruct (callers s1 !! t) eqn:Ht; simplify_eq. unfold getBrowser.
    rewrite Hbp. intros u Hu. simpl. destruct (decide (t = u)) as [->|Hne].
    + rewrite lookup_insert_eq. auto.
    + rewrite lookup_insert_ne by done. auto.
  - destruct (callers s1 !! t) as [[]|] eqn:Ht; simplify_eq.
    by destruct Hres; eapply resolving_caller.
  - destruct (launches s1 !! q) as [l|] eqn:Hq; [|done].
    rewrite Forall_lookup in Hpend. rewrite (Hpend q l Hq) in Hstep. done.
  - destruct (callers s1 !! t) as [[| p' |]|] eqn:Ht; simplify_eq.
    intros u Hu. destruct (decide (t = u)) as [->|Hne].
    + destruct (Hnew u Hu) as [H|[H|H]]; [congruence| |congruence].
      assert (p' = p) as -> by congruence. rewrite Hful in Hstep. simplify_eq.
      simpl. rewrite lookup_insert_eq. auto.
    + destruct (settlement <$> launches s1 !! p') as [[]|]; simplify_eq; simpl;
        rewrite lookup_insert_ne by done; auto.
Qed.

(** X2: once the browser is up (the stored promise is fulfilled, no launch
    is pending and no caller is resolving the path), it stays up whatever
    happens: no launch is ever started again, [browserPromise] keeps the same
    promise, and every later caller that returns gets that same browser. *)
Theorem browser_is_launched_once s p b evs s' :
  browser_up s p b →
  exec evs s = Some s' →
  browser_up s' p b
  ∧ launches s' = launches s
  ∧ ∀ t r, callers s !! t = None → callers s' !! t = Some (Returned r) → r = Ok b.
Proof.
  intros Hup Hexec.
  destruct (browser_up_exec s p b evs s s' Hup eq_refl) as (H1 & H2 & H3);
    [auto|done|].
  split; [done|]. split; [done|]. intros t r Ht Hr.
  destruct (H3 t Ht) as [H|[H|H]]; congruence.
Qed.


Lemma in_flight_launch ls x :
  length (filter (λ l, is_pending l = true)
            (ls ++ [{| executablePath := x; settlement := Pending |}])%list) =
    S (length (filter (λ l, is_pending l = true) ls)).
Proof.
  rewrite filter_app, length_app. rewrite filter_cons_True by done. simpl. lia.
Qed.

Lemma in_flight_settle ls q l r :
  ls !! q = Some l → is_pending l = true →
  S (length (filter (λ l, is_pending l = true) (<[q := settle r l]> ls))) =
    length (filter (λ l, is_pending l = true) ls).
Proof.
  intros Hq Hl.
  assert (q < length ls) as Hlt by (by eapply lookup_lt_Some).
  rewrite insert_take_drop by done.
  rewrite <- (take_drop_middle ls q l Hq) at 3.
  rewrite !filter_app, !length_app.
  rewrite (filter_cons_True _ l) by done.
  rewrite filter_cons_False; [simpl; lia|].
  unfold is_pending, settle. simpl. by destruct r.
Qed.

Lemma resolving_inv s : resolving s → ∃ t, callers s !! t = Some ResolvingPath.
Proof. intros (t & c & Ht & Hc). exists t. by destruct c. Qed.

Lemma insert_not_resolving (m : gmap nat Caller) t c u :
  is_resolving c = false →
  <[t := c]> m !! u = Some ResolvingPath → t ≠ u ∧ m !! u = Some ResolvingPath.
Proof.
  intros Hc. destruct (decide (t = u)) as [->|Hne].
  - rewrite lookup_insert_eq. intros [= ->]. done.
  - by rewrite lookup_insert_ne.
Qed.

Lemma step_single_flight ev s s' :
  single_flight s →
  match ev with Invoke _ => ¬ resolving s | _ => True end →
  step ev s = Some s' →
  single_flight s'.
Proof.
  intros (Huniq & Hres & Hle & Hnone) Hcalm Hstep.
  assert (∀ t c, is_resolving c = false →
            map_Exists (λ _ c, is_resolving c = true) (<[t := c]> (callers s)) →
            resolving s) as Hback.
  { intros t c Hc (u & c' & Hu & Hc'). destruct c'; try done.
    apply insert_not_resolving in Hu as [_ Hu]; [|done]. by eapply resolving_caller. }
  destruct ev as [t | t [stdout | e] | q r | t]; simpl in Hstep.
  - destruct (callers s !! t) eqn:Ht; simplify_eq. unfold getBrowser.
    destruct (browserPromise s) as [p|] eqn:Hbp.
    + split; [|split; [|split]]; simpl.
      * intros u u' [_ Hu]%insert_not_resolving [_ Hu']%insert_not_resolving;
          try done. by apply Huniq.
      * intros Hr. destruct Hcalm. exact (Hback t (Awaiting p) eq_refl Hr).
      * done.
      * done.
    + split; [|split; [|split]]; simpl.
      * intros u u' Hu Hu'.
        destruct (decide (t = u)) as [Heq|Hne]; [destruct (decide (t = u')) as [Heq'|Hne']|].
        -- congruence.
        -- rewrite lookup_insert_ne in Hu' by done.
           destruct Hcalm. by apply (resolving_caller s u').
        -- rewrite lookup_insert_ne in Hu by done.
           destruct Hcalm. by apply (resolving_caller s u).
      * intros _. split; [|done]. by apply Hnone.
      * done.
      * intros _. by apply Hnone.
  - destruct (callers s !! t) as [[]|] eqn:Ht; simplify_eq.
    destruct (Hres (resolving_caller s t Ht)) as [Hzero Hbp].
    assert (∀ u, <[t := Awaiting (length (launches s))]> (callers s) !! u
                 ≠ Some ResolvingPath) as Hno.
    { intros u [Hne Hu]%insert_not_resolving; [|done]. destruct Hne. by apply Huniq. }
    unfold in_flight in *.
    split; [|split; [|split]]; unfold in_flight; simpl.
    + intros u u' Hu. by destruct (Hno u).
    + intros [u Hu]%resolving_inv. by destruct (Hno u).
    + rewrite in_flight_launch, Hzero. done.
    + done.
  - destruct (callers s !! t) as [[]|] eqn:Ht; simplify_eq.
    assert (∀ u, <[t := Returned (Throw e)]> (callers s) !! u
                 ≠ Some ResolvingPath) as Hno.
    { intros u [Hne Hu]%insert_not_resolving; [|done]. destruct Hne. by apply Huniq. }
    split; [|split; [|split]]; simpl.
    + intros u u' Hu. by destruct (Hno u).
    + intros [u Hu]%resolving_inv. by destruct (Hno u).
    + done.
    + done.
  - destruct (launches s !! q) as [l|] eqn:Hq; [|done].
    destruct (is_pending l) eqn:Hpend; simplify_eq.
    pose proof (in_flight_settle (launches s) q l r Hq Hpend) as Hlen.
    unfold in_flight in *.
    split; [|split; [|split]]; unfold in_flight; simpl.
    + done.
    + intros Hr. destruct (Hres Hr) as [Hzero _]. lia.
    + lia.
    + intros _. lia.
  - destruct (callers s !! t) as [[| p |]|] eqn:Ht; simplify_eq.
    assert (∀ r, single_flight (resumed t r s)) as Hok.
    { intros r. unfold resumed. split; [|split; [|split]]; simpl.
      - intros u u' [_ Hu]%insert_not_resolving [_ Hu']%insert_not_resolving;
          try done. by apply Huniq.
      - intros Hr. apply Hres. exact (Hback t (Returned r) eq_refl Hr).
      - done.
      - done. }
    destruct (settlement <$> launches s !! p) as [[]|]; simplify_eq; apply Hok.
Qed.

(** X3: launch de-duplication holds on calm executions. If no request
    enters [getBrowser] while another one is suspended between the test of
    [browserPromise] and its assignment, then at every moment at most one
    launch attempt is in flight. *)
Theorem single_launch_without_overlap evs s :
  calm evs initial = true →
  exec evs initial = Some s →
  (in_flight s ≤ 1)%nat.
Proof.
  intros Hcalm Hexec.
  enough (single_flight s) as (_ & _ & H & _) by done.
  assert (single_flight initial) as Hinit.
  { split; [|split; [|split]].
    - intros t t'. simpl. by rewrite lookup_empty.
    - intros [t Ht]%resolving_inv. simpl in Ht. by rewrite lookup_empty in Ht.
    - unfold in_flight. simpl. lia.
    - done. }
  revert Hinit Hcalm Hexec. generalize initial.
  induction evs as [|ev evs IH]; intros s0 Hs0 Hcalm Hexec; simpl in *.
  { by simplify_eq. }
  destruct (step ev s0) as [s1|] eqn:Hstep; [|done].
  apply andb_true_iff in Hcalm as [Hev Hcalm].
  apply (IH s1); [|done|done].
  eapply step_single_flight; [done| |done].
  destruct ev; try done. by apply negb_true_iff, bool_decide_eq_false in Hev.
Qed.

End SessionInvariants.

(** ** [logScrape] and [getCurrentMonth]: the counters *)

Lemma count_Some st month url mode c :
  count st month url mode = Some c ↔
  ∃ byUrl byMode, st !! month = Some byUrl ∧ byUrl !! url = Some byMode
                  ∧ byMode !! mode = Some c.
Proof.
  unfold count. split.
  - destruct (st !! month) as [byUrl|]; [|done].
    destruct (byUrl !! url) as [byMode|] eqn:Hu; [|done]. eauto.
  - intros (byUrl & byMode & -> & -> & ->). done.
Qed.

(** X5: [logScrape] never removes a count: a triple that has an entry keeps
    one, whatever is recorded next (inherited names included) and however
    the statements end. *)
Theorem logScrape_keeps_entries st month url mode c date' url' mode' :
  count st month url mode = Some c →
  is_Some (count (stats_of (logScrape_sync date' url' mode' st)) month url mode).
Proof.
  intros Hc.
  destruct (decide ((getCurrentMonth date', url', mode') = (month, url, mode)))
    as [Heq|Hne].
  2:{ rewrite count_logScrape_sync_other by done. eauto. }
  simplify_eq. apply count_Some in Hc as (byUrl & byMode & Hm & Hu & Hk).
  rewrite stats_of_logScrape_sync. cbv zeta.
  unfold Js.get, count. rewrite Hm. cbn [default]. unfold id.
  rewrite Hu, !lookup_insert_eq.
  unfold bump_mode, Js.get, Js.set. rewrite Hk.
  destruct (Js.truthy_num (Js.Own c)).
  - case_bool_decide; rewrite ?Hk; by rewrite lookup_insert_eq.
  - case_bool_decide; rewrite ?Hk, ?lookup_insert_eq; by rewrite ?lookup_insert_eq.
Qed.

Lemma logScrape_sync_positive st date url mode :
  Js.inherited url = false → Js.inherited mode = false →
  positive_counts st → positive_counts (stats_of (logScrape_sync date url mode st)).
Proof.
  intros Hu Hk Hpos m u k c.
  destruct (decide ((getCurrentMonth date, url, mode) = (m, u, k))) as [Heq|Hne].
  - simplify_eq. rewrite count_logScrape_sync_same by done. intros [= <-].
    eexists. split; [done|]. apply to_double_pos.
    destruct (count st _ u k) as [c|] eqn:Hc; [|simpl; lia].
    destruct (Hpos _ _ _ _ Hc) as (z & -> & Hz). simpl. lia.
  - rewrite count_logScrape_sync_other by done. apply Hpos.
Qed.

(** X6: starting from counters whose counts are positive integers (the
    empty counters among them), scrapes whose url and mode name no inherited
    member are all recorded, and every count stays a positive integer: NaN
    and 0 never appear. *)
Theorem counts_stay_positive st date scrapes :
  plain_scrapes scrapes →
  positive_counts st →
  ∃ st', log_all date scrapes st = Some st' ∧ positive_counts st'.
Proof.
  intros Hplain. revert st.
  induction Hplain as [|[u k] scrapes [Hu Hk] _ IH]; intros st Hpos; [by exists st|].
  cbn [log_all fst snd] in *. rewrite (logScrape_sync_plain date u k st) by done.
  apply IH. by apply logScrape_sync_positive.
Qed.

(** X7: a mode that names an inherited member is miscounted for every url
    and month: the first scrape of such a triple is recorded as NaN, and for
    [__proto__] nothing is stored at all. *)
Theorem inherited_mode_first_scrape st date url mode :
  Js.inherited url = false →
  Js.inherited mode = true →
  count st (getCurrentMonth date) url mode = None →
  ∃ st', logScrape_sync date url mode st = Recorded st'
    ∧ count st' (getCurrentMonth date) url mode =
        if bool_decide (mode = "__proto__") then None else Some Js.NaN.
Proof.
  intros Hu Hk Hc. eexists. split; [by apply logScrape_sync_plain|].
  rewrite stats_of_logScrape_sync. cbv zeta. unfold count in *.
  rewrite lookup_insert_eq.
  assert (∀ byMode : ModeCounts, byMode !! mode = None →
            bump_mode mode byMode !! mode =
              if bool_decide (mode = "__proto__") then None else Some Js.NaN) as Hbump.
  { intros byMode Hnone. unfold bump_mode, Js.get, Js.set. rewrite Hnone, Hk. simpl.
    rewrite Hnone. case_bool_decide; [done|]. by rewrite lookup_insert_eq. }
  destruct (st !! getCurrentMonth date) as [byUrl|] eqn:Hst; cbn [default]; unfold id.
  - rewrite (get_plain byUrl) by done.
    destruct (byUrl !! url) as [byMode|] eqn:Hby; rewrite !lookup_insert_eq;
      by apply Hbump.
  - rewrite (get_plain ∅) by done. rewrite lookup_empty, !lookup_insert_eq.
    by apply Hbump.
Qed.

Lemma pretty_N_go_no_dash x s : has_dash (pretty_N_go x s) = has_dash s.
Proof.
  revert s. induction (N.lt_wf_0 x) as [x _ IH]; intros s.
  assert (x = 0 ∨ 0 < x)%N as [->|?] by lia.
  - by rewrite pretty_N_go_0.
  - rewrite pretty_N_go_step by done. rewrite IH by (by apply N.div_lt).
    unfold pretty_N_char. by repeat case_match.
Qed.

Lemma pretty_nat_no_dash (n : nat) : has_dash (pretty n) = false.
Proof.
  unfold pretty, pretty_nat, pretty, pretty_N.
  case_decide; [done|]. by rewrite pretty_N_go_no_dash.
Qed.

Lemma split_at_dash a a' b b' :
  has_dash a = false → has_dash a' = false →
  a +:+ "-" +:+ b = a' +:+ "-" +:+ b' → a = a' ∧ b = b'.
Proof.
  revert a'. induction a as [|c a IH]; intros [|c' a'] Ha Ha' Heq.
  - change (String "-" b = String "-" b') in Heq. by simplify_eq.
  - change (String "-" b = String c' (a' +:+ "-" +:+ b')) in Heq.
    simplify_eq; cbn [has_dash] in Ha'; by rewrite Ascii.eqb_refl in Ha'.
  - change (String c (a +:+ "-" +:+ b) = String "-" b') in Heq.
    simplify_eq; cbn [has_dash] in Ha; by rewrite Ascii.eqb_refl in Ha.
  - rewrite !str_app_cons in Heq. simplify_eq. cbn [has_dash] in Ha, Ha'.
    destruct (Ascii.eqb c' "-"); [done|].
    destruct (IH a' Ha Ha') as [-> ->]; done.
Qed.

(** X8: different months give different keys. For zero-based month
    numbers below 12, [getCurrentMonth] is injective on (year, month). *)
Theorem getCurrentMonth_inj d1 d2 :
  (monthIndex d1 < 12)%nat → (monthIndex d2 < 12)%nat →
  getCurrentMonth d1 = getCurrentMonth d2 → d1 = d2.
Proof.
  intros H1 H2 Heq. unfold getCurrentMonth in Heq.
  apply split_at_dash in Heq as [Hy Hm]; [|apply pretty_nat_no_dash..].
  apply (inj pretty) in Hy.
  destruct d1 as [y1 m1], d2 as [y2 m2]. simpl in *. subst. f_equal.
  do 12 (destruct m1 as [|m1]; [do 12 (destruct m2 as [|m2]; [by vm_compute in Hm|]); lia|]).
  lia.
Qed.

(** X9: for every month of the year, the month part of the key is the
    number of the month (January is 01) written with two decimal digits, the
    tens digit being 0 up to September. *)
Theorem getCurrentMonth_two_digit_month d :
  (monthIndex d < 12)%nat →
  let n := (monthIndex d + 1)%nat in
  getCurrentMonth d =
    pretty (fullYear d) +:+ "-"
    +:+ String (decimal_digit (n / 10)) (String (decimal_digit (n mod 10)) "").
Proof.
  intros H n. subst n. destruct d as [y m]. unfold getCurrentMonth. simpl in *.
  do 2 f_equal.
  do 12 (destruct m as [|m]; [by vm_compute|]). lia.
Qed.

(** ** The handler of [POST /scrape] *)




(** When the statements of [logScrape] throw, nothing but the month level
    has been created. *)
Lemma logScrape_sync_raised date url mode st st' :
  logScrape_sync date url mode st = Raised st' →
  st' = <[getCurrentMonth date := default ∅ (st !! getCurrentMonth date)]> st.
Proof.
  unfold logScrape_sync. destruct (Js.get _ url); [done| |done].
  destruct (Js.write_on_builtin url mode); by intros [= <-].
Qed.

Lemma month_level_counts (st : ScrapeStats) month0 month url mode :
  count (<[month0 := default ∅ (st !! month0)]> st) month url mode =
    count st month url mode.
Proof.
  unfold count. destruct (decide (month0 = month)) as [->|Hne].
  - rewrite lookup_insert_eq. destruct (st !! month); [done|].
    cbn [default]. by rewrite lookup_empty.
  - by rewrite lookup_insert_ne.
Qed.

(** X13: a scrape that fails for any reason other than the write of the
    stats file is not counted. After a 500 reply with no failed write, every
    count is what it was, and the built-in objects are untouched; the
    counters themselves are unchanged, unless the statements of [logScrape]
    threw after creating the level of a new month, which then is empty. *)
Theorem failed_scrape_is_not_counted parse toBase64 o body w :
  let evs := events_of o (scrape parse toBase64 body) w in
  let w' := (run o (scrape parse toBase64 body) w).2 in
  pristine w = true →
  replies evs = [generic_failure] →
  existsb failed_write evs = false →
  (∀ month url mode,
     count (scrapeStats w') month url mode = count (scrapeStats w) month url mode)
  ∧ pristine w' = true
  ∧ (scrapeStats w' = scrapeStats w
     ∨ ∃ date, scrapeStats w !! getCurrentMonth date = None
               ∧ scrapeStats w' = <[getCurrentMonth date := ∅]> (scrapeStats w)).
Proof.
  intros evs w' Hpristine. subst evs w'.
  assert (∀ w' : World,
            scrapeStats w' = scrapeStats w ∧ pristine w' = pristine w →
            (∀ month url mode,
               count (scrapeStats w') month url mode = count (scrapeStats w) month url mode)
            ∧ pristine w' = true
            ∧ (scrapeStats w' = scrapeStats w
               ∨ ∃ date, scrapeStats w !! getCurrentMonth date = None
                         ∧ scrapeStats w' = <[getCurrentMonth date := ∅]> (scrapeStats w)))
    as Hsame.
  { intros w' [Hst Hpr]. rewrite Hst, Hpr. auto. }
  destruct body as [request|].
  2:{ by rewrite no_body_events. }
  destruct (truthy_ostr (url request)) eqn:Hurl.
  2:{ by rewrite falsy_url_events by done. }
  apply truthy_url in Hurl as (target & Hurl & Htarget).
  destruct (run_scrape parse toBase64 o request target w Hurl Htarget)
    as [(e & -> & Hst) | [(b & e & -> & Hst)
       | [(b & p & nav & rc & Hnav & Hst & ->)
         | (b & p & nav & content' & rm & rw & rc & Hnav & _ & ->)]]].
  - intros _ _. by apply Hsame.
  - intros _ _. by apply Hsame.
  - intros _ _. destruct Hst as [Hst|Hst]; [by apply Hsame|].
    cbv zeta in Hst. unfold increment in Hst. rewrite Hpristine in Hst.
    destruct Hst as (Hthrow & Hst & Hpr).
    destruct (logScrape_sync _ target _ (scrapeStats w)) as [st1|st1|st1] eqn:Hout;
      try done.
    apply logScrape_sync_raised in Hout. cbn [stats_of untouched] in *. subst st1.
    split; [intros; rewrite Hst; apply month_level_counts|].
    split; [by rewrite Hpr|].
    rewrite Hst. set (date := clock o _).
    destruct (scrapeStats w !! getCurrentMonth date) as [byUrl|] eqn:Hm.
    + left. cbn [default]. unfold id. by rewrite insert_id.
    + right. exists date. done.
  - apply navigation_is_inert in Hnav as (_ & Hwrite & Hrep & _).
    unfold replies in *. rewrite !omap_app, !existsb_app, Hrep, Hwrite.
    destruct rw as [[]|e]; [done|]. cbn. done.
Qed.


Lemma replies_navigation nav :
  Forall (λ ev, event_within reads_page no_effect ev = true) nav → replies nav = [].
Proof.
  induction 1 as [|ev nav Hev _ IH]; [done|].
  unfold replies in *. cbn. rewrite IH. by destruct ev.
Qed.

Lemma replies_app l1 l2 : replies (l1 ++ l2) = (replies l1 ++ replies l2)%list.
Proof. apply omap_app. Qed.

Lemma replies_call {X} (c : Call X) r l : replies (EvCall c r :: l) = replies l.
Proof. done. Qed.

Lemma replies_reply r l : replies (EvReply r :: l) = r :: replies l.
Proof. done. Qed.

Lemma replies_nil : replies [] = [].
Proof. done. Qed.

Lemma replies_inert nav :
  Forall (λ ev, event_within navigates no_effect ev = true) nav → replies nav = [].
Proof. by intros (_ & _ & H & _)%navigation_is_inert. Qed.

Ltac replies_simpl :=
  repeat first [ rewrite replies_app | rewrite replies_call | rewrite replies_reply
               | rewrite replies_nil ].

Lemma after_open_reply parse toBase64 o target mode page w content :
  let rest : Prog unit :=
    await (Goto page target);;
    result ← dispatch parse toBase64 mode page;
    logScrape target (mode_key mode);;
    send 200 (ContentBody result) in
  let wg := record_event (EvCall (Goto page target) (Ok tt)) w in
  replies (events_of o rest w) = [ {| status := 200; payload := ContentBody content |} ] →
  answer o _ (trace w) (Goto page target) = Ok tt
  ∧ (run o (dispatch parse toBase64 mode page) wg).1 = Ok content.
Proof.
  intros rest wg. subst rest. unfold events_of.
  rewrite run_mbind, run_await.
  destruct (answer o _ (trace w) (Goto page target)) as [[]|e] eqn:Hg;
    cbv beta iota; cbn [fst snd].
  2:{ cbn [trace record_event]. rewrite drop_app_length. by replies_simpl. }
  fold wg. rewrite run_mbind.
  pose proof (run_footprint reads_page no_effect o
                (dispatch parse toBase64 mode page) wg
                (footprint_dispatch _ _ _ _)) as (Hev & Hst & Hpg).
  pose proof (run_trace o (dispatch parse toBase64 mode page) wg) as Htr.
  apply replies_navigation in Hev.
  set (nav := events_of o (dispatch parse toBase64 mode page) wg) in *.
  destruct (run o (dispatch parse toBase64 mode page) wg) as [[content0|e] wd] eqn:Hd;
    simpl in Htr; cbv beta iota; cbn [fst snd].
  2:{ rewrite Htr. rewrite <- app_assoc, drop_app_length.
      replies_simpl. by rewrite Hev. }
  rewrite run_mbind, run_logScrape. cbv beta iota zeta.
  destruct (completion _) as [[]|e'].
  2:{ cbn [fst snd incremented trace]. rewrite Htr.
      rewrite <- app_assoc, drop_app_length. replies_simpl. by rewrite Hev. }
  match goal with
  | |- context [answer o unit ?tr (WriteFile ?st)] =>
      destruct (answer o unit tr (WriteFile st)) as [[]|e]
  end; cbn [run send eff perform record_event fst snd scrapeStats pristine pageVar
            trace ret];
    rewrite Htr; rewrite <- !app_assoc; rewrite drop_app_length;
    replies_simpl; rewrite Hev.
  - intros [= ->]. done.
  - done.
Qed.

(** X15: the content of a 200 reply is the result of the extractor chosen
    by the request's mode, run on the page the handler opened, after that
    page was navigated to the request's url and before the counters were
    touched. *)
Theorem reply_content_is_extractor_result parse toBase64 o body w content :
  let evs := events_of o (scrape parse toBase64 body) w in
  replies evs = [ {| status := 200; payload := ContentBody content |} ] →
  ∃ request b p wg,
    body = Some request
    ∧ trace wg = (trace w ++ [ EvCall GetBrowser (Ok b); EvCall (NewPage b) (Ok p);
                               EvCall (Goto p (default "" (url request))) (Ok tt) ])%list
    ∧ scrapeStats wg = scrapeStats w
    ∧ (run o (dispatch parse toBase64 (mode request) p) wg).1 = Ok content.
Proof.
  intros evs. subst evs. destruct body as [request|].
  2:{ by rewrite no_body_events. }
  destruct (truthy_ostr (url request)) eqn:Hurl.
  2:{ by rewrite falsy_url_events by done. }
  unfold events_of. rewrite scrape_Some, Hurl. cbn [negb]. cbv zeta.
  set (target := default "" (url request)).
  rewrite run_mbind, run_eff. cbn [perform fst snd].
  set (w0 := {| scrapeStats := scrapeStats w; pristine := pristine w; pageVar := None;
                trace := trace w |}).
  rewrite run_finally, run_try_catch, run_mbind, run_await.
  destruct (answer o _ (trace w0) GetBrowser) as [b|e] eqn:Hb.
  2:{ cbn. rewrite <- !app_assoc. rewrite drop_app_length. by replies_simpl. }
  rewrite run_mbind, run_await.
  set (w1 := record_event (EvCall GetBrowser (Ok b)) w0).
  destruct (answer o _ (trace w1) (NewPage b)) as [p|e] eqn:Hp.
  2:{ cbn. rewrite <- !app_assoc. rewrite drop_app_length. by replies_simpl. }
  rewrite run_mbind, run_eff. cbn [perform fst snd].
  set (w2 := {| scrapeStats := _; pristine := _; pageVar := Some p; trace := _ |}).
  pose proof (after_open_reply parse toBase64 o target (mode request) p w2 content)
    as Hreply.
  pose proof (run_after_open parse toBase64 o target (mode request) p w2) as Hrest.
  cbv zeta in Hreply, Hrest. unfold events_of in Hreply.
  match type of Hrest with
  | context [run o ?rest w2] => destruct (run o rest w2) as [r w3] eqn:Hrun
  end.
  cbn [fst snd] in Hreply, Hrest.
  destruct Hrest as [Hpg [(e & nav & -> & Htr & Hnav & Hst)
                         | (nav & content' & rm & rw & Hnav & Hst & Htr & ->)]].
  - rewrite run_send, run_finally_block. cbn [record_event pageVar].
    rewrite Hpg. cbn [w2 pageVar snd trace record_event]. rewrite Htr.
    cbn [w2 w1 w0 trace record_event]. rewrite <- !app_assoc.
    rewrite drop_app_length.
    apply replies_inert in Hnav. replies_simpl. by rewrite Hnav.
  - assert (replies (drop (length (trace w2)) (trace w3)) =
            match rw with
            | Ok _ => [ {| status := 200; payload := ContentBody content' |} ]
            | Throw _ => []
            end) as Hrep3.
    { rewrite Htr, drop_app_length. apply replies_inert in Hnav.
      replies_simpl. rewrite Hnav. destruct rw; by replies_simpl. }
    destruct rw as [[]|e].
    + rewrite run_finally_block. rewrite Hpg. cbn [w2 pageVar snd trace record_event].
      rewrite Htr. cbn [w2 w1 w0 trace record_event]. rewrite <- !app_assoc.
      rewrite drop_app_length.
      apply replies_inert in Hnav. replies_simpl. rewrite Hnav.
      intros [= ->]. destruct (Hreply Hrep3) as [Hg Hd].
      exists request, b, p, (record_event (EvCall (Goto p target) (Ok tt)) w2).
      split; [done|]. split; [|done].
      cbn [w2 w1 w0 trace record_event]. by rewrite <- !app_assoc.
    + rewrite run_send, run_finally_block. cbn [record_event pageVar].
      rewrite Hpg. cbn [w2 pageVar snd trace record_event]. rewrite Htr.
      cbn [w2 w1 w0 trace record_event]. rewrite <- !app_assoc.
      rewrite drop_app_length.
      apply replies_inert in Hnav. replies_simpl. by rewrite Hnav.
Qed.

(** ** The extractors and [saveStats] *)

(** X16: when the readability pass finds no article, the article extractor
    returns the empty string after that single read of the page: no title
    line, no [Metadata:] header, and the meta elements are not read. *)
Theorem extractEnhancedArticle_no_article parse o page w html :
  answer o _ (trace w) (Content page) = Ok html →
  parse html = None →
  (run o (extractEnhancedArticle parse page) w).1 = Ok ""
  ∧ events_of o (extractEnhancedArticle parse page) w = [ EvCall (Content page) (Ok html) ].
Proof.
  intros H1 Hparse.
  assert (run o (extractEnhancedArticle parse page) w =
          (Ok "", record_event (EvCall (Content page) (Ok html)) w)) as Hrun.
  { unfold extractEnhancedArticle. by rewrite run_mbind, run_await, H1, Hparse. }
  split; [by rewrite Hrun|]. apply events_of_eq. by rewrite Hrun.
Qed.

(** X17: when the page's content cannot be read, the text, article and
    source modes (and every unrecognised mode) throw that error; they do not
    return an empty string, and they read nothing else. *)
Theorem content_error_propagates parse toBase64 o mode page w e :
  mode ≠ Some "screenshot" → mode ≠ Some "print" →
  answer o _ (trace w) (Content page) = Throw e →
  run o (dispatch parse toBase64 mode page) w =
    (Throw e, record_event (EvCall (Content page) (Throw e)) w).
Proof.
  intros Hs Hp He.
  assert (run o (extractReadableContent parse page) w =
          (Throw e, record_event (EvCall (Content page) (Throw e)) w)) as Htext.
  { by rewrite run_extractReadableContent, He. }
  unfold dispatch. destruct mode as [m|]; [|done].
  destruct (String.eqb_spec m "screenshot") as [->|_]; [done|].
  destruct (String.eqb_spec m "source") as [->|_].
  { unfold getPageSource. by rewrite run_await, He. }
  destruct (String.eqb_spec m "print") as [->|_]; [done|].
  destruct (String.eqb_spec m "article") as [->|_]; [|done].
  unfold extractEnhancedArticle. by rewrite run_mbind, run_await, He.
Qed.

(** The catch clause of [getPrintVersion] rethrows: it changes nothing. *)
Lemma run_try_rethrow {A} o (p : Prog A) w :
  run o (try_catch p (λ error, throw error)) w = run o p w.
Proof. rewrite run_try_catch. by destruct (run o p w) as [[a|e] w1]. Qed.

(** X18: whenever [getPrintVersion] returns, it has made exactly four calls,
    all successful: inject the style, emulate print, capture the HTML it
    returns, and emulate screen again as its last step. *)
Theorem getPrintVersion_restores_screen o page w content :
  (run o (getPrintVersion page) w).1 = Ok content →
  events_of o (getPrintVersion page) w =
    [ EvCall (AddPrintStyle page) (Ok tt);
      EvCall (EmulateMediaType page "print") (Ok tt);
      EvCall (OuterHTML page) (Ok content);
      EvCall (EmulateMediaType page "screen") (Ok tt) ].
Proof.
  unfold events_of, getPrintVersion. rewrite run_try_rethrow.
  rewrite !run_mbind, run_await.
  destruct (answer o _ (trace w) (AddPrintStyle page)) as [[]|e]; [|done].
  rewrite !run_mbind, run_await.
  set (w1 := record_event _ w).
  destruct (answer o _ (trace w1) (EmulateMediaType page "print")) as [[]|e]; [|done].
  rewrite !run_mbind, run_await.
  set (w2 := record_event _ w1).
  destruct (answer o _ (trace w2) (OuterHTML page)) as [html|e]; [|done].
  rewrite !run_mbind, run_await.
  set (w3 := record_event _ w2).
  destruct (answer o _ (trace w3) (EmulateMediaType page "screen")) as [[]|e]; [|done].
  rewrite run_mret. cbn [fst snd]. intros [= ->].
  cbn [w3 w2 w1 trace record_event]. rewrite <- !app_assoc.
  by rewrite drop_app_length.
Qed.

(** X19: when the capture of the print layout fails, [getPrintVersion]
    throws without calling [emulateMediaType('screen')]: the page is left
    emulating the print media type. *)
Theorem getPrintVersion_leaves_print_on_failure o page w :
  let evs := events_of o (getPrintVersion page) w in
  existsb failed_capture evs = true →
  existsb restores_screen evs = false
  ∧ ∃ e, (run o (getPrintVersion page) w).1 = Throw e.
Proof.
  intros evs. subst evs.
  unfold events_of, getPrintVersion. rewrite run_try_rethrow.
  rewrite !run_mbind, run_await.
  destruct (answer o _ (trace w) (AddPrintStyle page)) as [[]|e].
  2:{ cbn [fst snd trace record_event]. by rewrite drop_app_length. }
  rewrite !run_mbind, run_await.
  set (w1 := record_event _ w).
  destruct (answer o _ (trace w1) (EmulateMediaType page "print")) as [[]|e].
  2:{ cbn [w1 fst snd trace record_event]. rewrite <- !app_assoc.
      by rewrite drop_app_length. }
  rewrite !run_mbind, run_await.
  set (w2 := record_event _ w1).
  destruct (answer o _ (trace w2) (OuterHTML page)) as [html|e].
  2:{ cbn [w2 w1 fst snd trace record_event]. rewrite <- !app_assoc.
      rewrite drop_app_length. intros _. split; [done|]. eauto. }
  rewrite !run_mbind, run_await.
  set (w3 := record_event _ w2).
  destruct (answer o _ (trace w3) (EmulateMediaType page "screen")) as [[]|e];
    cbn [run_mret w3 w2 w1 fst snd trace record_event]; rewrite ?run_mret;
    cbn [w3 w2 w1 fst snd trace record_event]; rewrite <- !app_assoc;
    by rewrite drop_app_length.
Qed.



(** X21: [saveStats] rejects exactly when the write of the stats file
    rejects. A failure to create the data directory is swallowed and the
    write is attempted all the same, with the counters as they are in memory,
    which [saveStats] leaves untouched. *)
Theorem saveStats_outcome o w :
  ∃ rm rw,
    run o saveStats w =
      (rw, {| scrapeStats := scrapeStats w; pristine := pristine w;
              pageVar := pageVar w;
              trace := (trace w ++ [ EvCall Mkdir rm;
                                     EvCall (WriteFile (scrapeStats w)) rw ])%list |}).
Proof.
  unfold saveStats, ensureDataDir.
  rewrite run_mbind, run_try_catch, run_await.
  exists (answer o _ (trace w) Mkdir).
  destruct (answer o _ (trace w) Mkdir) as [[]|e]; rewrite ?run_mret;
    rewrite run_mbind, run_eff; cbn [perform fst snd]; rewrite run_await;
    cbn [trace record_event scrapeStats pristine pageVar]; eexists; unfold record_event;
    cbn [trace scrapeStats pristine pageVar]; rewrite <- app_assoc; done.
Qed.

(** ** The counters and the API-key hook, restated *)

(** X4: counter correctness for plain keys. The scrapes of one month, all
    of urls that name no inherited member, are all recorded; afterwards the
    count of a triple whose url and mode name no inherited member is its
    count before (0 if it had none, or NaN) plus the number of scrapes of
    that (url, mode) pair, as long as that stays within the integers a
    double holds exactly; with no such scrape it is unchanged. *)
Theorem counter_counts_scrapes date url mode scrapes st :
  Forall (λ s, Js.inherited s.1 = false) scrapes →
  Js.inherited url = false → Js.inherited mode = false →
  (- 2 ^ 53 ≤ base (count st (getCurrentMonth date) url mode))%Z →
  (base (count st (getCurrentMonth date) url mode)
   + Z.of_nat (occurrences (url, mode) scrapes) ≤ 2 ^ 53)%Z →
  ∃ st', log_all date scrapes st = Some st'
    ∧ count st' (getCurrentMonth date) url mode =
        match occurrences (url, mode) scrapes with
        | 0 => count st (getCurrentMonth date) url mode
        | S n => Some (Js.Num (base (count st (getCurrentMonth date) url mode)
                               + Z.of_nat (S n)))
        end.
Proof. apply count_log_all. Qed.

(** X22: recording a scrape changes the count of its own triple only: the
    count of every other (month, url, mode) is left as it was, whatever the
    keys are and however the statements end. *)
Theorem logScrape_touches_one_triple month url mode date' url' mode' st :
  (getCurrentMonth date', url', mode') ≠ (month, url, mode) →
  count (stats_of (logScrape_sync date' url' mode' st)) month url mode =
    count st month url mode.
Proof. apply count_logScrape_sync_other. Qed.

(** X23: the month key never names a member inherited from
    [Object.prototype]: the month level of the counters is always an own
    property. *)
Theorem month_key_is_plain date : Js.inherited (getCurrentMonth date) = false.
Proof. apply getCurrentMonth_plain. Qed.

(** X24: a request to [/scrape] without the configured API key is answered
    with status 401 and nothing else happens: the handler is not run, no
    browser, page or file is touched and the counters are unchanged. *)
Theorem unauthorised_scrape_is_rejected parse toBase64 API_KEY request o w :
  target request ≠ "/" → x_api_key request ≠ Some API_KEY →
  events_of o (post_scrape parse toBase64 API_KEY request) w =
    [ EvReply {| status := 401; payload := ErrorBody "Unauthorized: Invalid API key" |} ]
  ∧ scrapeStats (run o (post_scrape parse toBase64 API_KEY request) w).2 = scrapeStats w.
Proof. apply post_scrape_unauthorised. Qed.

(** ** Requests without a url, and scrapes that are refused *)

(** X25: a request whose body is present but has no url, or an empty one,
    is answered with status 400 and the error [URL is required], whatever
    its mode; that reply is all the handler does: no call to the browser, to
    a page or to the file system, the counters are untouched, and the handler
    resolves. *)
Theorem scrape_without_url parse toBase64 o request w :
  truthy_ostr (url request) = false →
  run o (scrape parse toBase64 (Some request)) w =
    (Ok tt, record_event
              (EvReply {| status := 400; payload := ErrorBody "URL is required" |}) w).
Proof. apply falsy_url_run. Qed.

(** X26: the statements of [logScrape] throw only for a url that names a
    built-in function inherited from [Object.prototype] and has no entry of
    its own in the month, and then only for a mode among [length], [name],
    [caller], [arguments] and [prototype]; no count has changed when they
    do. *)
Theorem logScrape_throws_only_on_builtin date url mode st st' :
  logScrape_sync date url mode st = Raised st' →
  Js.inherited url = true
  ∧ url ≠ "__proto__"
  ∧ default ∅ (st !! getCurrentMonth date) !! url = None
  ∧ mode ∈ ["length"; "name"; "caller"; "arguments"; "prototype"]
  ∧ ∀ month u k, count st' month u k = count st month u k.
Proof.
  intros Hout. pose proof (logScrape_sync_raised _ _ _ _ _ Hout) as ->.
  unfold logScrape_sync, Js.get in Hout.
  destruct (default ∅ (st !! getCurrentMonth date) !! url) as [byMode|] eqn:Hown; [done|].
  destruct (Js.inherited url) eqn:Hu; [|done].
  split; [done|]. unfold Js.write_on_builtin in Hout.
  destruct (String.eqb_spec mode "__proto__") as [->|_]; [done|].
  destruct (String.eqb_spec url "__proto__") as [->|Hproto]; [done|].
  split; [done|]. split; [done|]. split; [|intros; apply month_level_counts].
  case_bool_decide as Hmode.
  - rewrite !elem_of_cons in *. tauto.
  - destruct (String.eqb_spec url "constructor"); [|done].
    destruct (String.eqb_spec mode "prototype") as [->|_]; [|done].
    do 4 apply list_elem_of_further. apply list_elem_of_here.
Qed.

(** ** Instances of the further properties *)

Module SessionInvariantInstances.
Import Session SessionInvariants.

Lemma getBrowser_never_returns_failed_attempt_witness :
  ∃ s, exec two_early_requests initial = Some s
       ∧ (∀ q, browserPromise s = Some q →
               ∃ l, launches s !! q = Some l ∧ ∀ e, settlement l ≠ Rejected e)
       ∧ (∀ t p, callers s !! t = Some (Awaiting p) → (p < length (launches s))%nat).
Proof.
  eexists. split; [vm_compute; reflexivity|].
  apply (getBrowser_never_returns_failed_attempt two_early_requests).
  vm_compute. reflexivity.
Defined.

Lemma served_browser_up : browser_up served 0 1.
Proof.
  split; [vm_compute; reflexivity|]. split; [vm_compute; reflexivity|].
  split; [vm_compute; by repeat constructor|].
  intros H. apply (bool_decide_eq_true_2 (resolving served)) in H.
  vm_compute in H. discriminate.
Defined.

Lemma browser_is_launched_once_witness :
  ∃ s', exec [Invoke 5; Invoke 6; Resume 5] served = Some s'
        ∧ browser_up s' 0 1
        ∧ launches s' = launches served
        ∧ ∀ t r, callers served !! t = None →
                 callers s' !! t = Some (Returned r) → r = Ok 1.
Proof.
  eexists. split; [vm_compute; reflexivity|].
  apply (browser_is_launched_once served 0 1 [Invoke 5; Invoke 6; Resume 5]).
  - exact served_browser_up.
  - vm_compute. reflexivity.
Defined.

Lemma single_launch_without_overlap_witness :
  let evs := [ Invoke 0; WhichSettles 0 (Ok "/usr/bin/chromium"); Invoke 1;
               LaunchSettles 0 (Throw "spawn failed"); Resume 0; Resume 1;
               Invoke 2; WhichSettles 2 (Ok "/usr/bin/chromium"); Invoke 3 ] in
  calm evs initial = true
  ∧ ∃ s, exec evs initial = Some s ∧ (in_flight s ≤ 1)%nat.
Proof.
  intros evs.
  assert (calm evs initial = true) as Hcalm by (vm_compute; reflexivity).
  split; [exact Hcalm|]. eexists.
  assert (exec evs initial = Some (default initial (exec evs initial))) as Hexec
    by (vm_compute; reflexivity).
  split; [exact Hexec|].
  exact (single_launch_without_overlap evs _ Hcalm Hexec).
Defined.

End SessionInvariantInstances.

Lemma logScrape_keeps_entries_witness :
  let st := stats_of (logScrape_sync may_2024 "https://a.example/" "text" ∅) in
  count st "2024-05" "https://a.example/" "text" = Some (Js.Num 1)
  ∧ is_Some (count (stats_of (logScrape_sync may_2024 "https://a.example/" "__proto__" st))
               "2024-05" "https://a.example/" "text").
Proof.
  intros st.
  assert (count st "2024-05" "https://a.example/" "text" = Some (Js.Num 1)) as H
    by (vm_compute; reflexivity).
  split; [exact H|].
  exact (logScrape_keeps_entries st _ _ _ _ may_2024 "https://a.example/" "__proto__" H).
Defined.

Lemma positive_counts_empty : positive_counts ∅.
Proof. intros month url mode c. unfold count. by rewrite lookup_empty. Defined.

Lemma counts_stay_positive_witness :
  let scrapes := [ ("https://a.example/", "text"); ("https://a.example/", "weird") ] in
  plain_scrapes scrapes
  ∧ ∃ st', log_all may_2024 scrapes ∅ = Some st' ∧ positive_counts st'.
Proof.
  intros scrapes.
  assert (plain_scrapes scrapes) as Hplain by (by repeat constructor).
  split; [exact Hplain|].
  exact (counts_stay_positive ∅ may_2024 scrapes Hplain positive_counts_empty).
Defined.

Lemma inherited_mode_first_scrape_witness :
  Js.inherited "constructor" = true
  ∧ ∃ st', logScrape_sync may_2024 "https://a.example/" "constructor" ∅ = Recorded st'
      ∧ count st' "2024-05" "https://a.example/" "constructor" =
          if bool_decide ("constructor" = "__proto__") then None else Some Js.NaN.
Proof.
  split; [reflexivity|].
  apply (inherited_mode_first_scrape ∅ may_2024 "https://a.example/" "constructor");
    reflexivity.
Defined.

Lemma getCurrentMonth_inj_witness :
  (monthIndex may_2024 < 12)%nat
  ∧ getCurrentMonth may_2024 = getCurrentMonth {| fullYear := 2024; monthIndex := 4 |}
  ∧ may_2024 = {| fullYear := 2024; monthIndex := 4 |}.
Proof.
  assert (monthIndex may_2024 < 12)%nat as H by (vm_compute; lia).
  split; [exact H|]. split; [reflexivity|].
  exact (getCurrentMonth_inj may_2024 {| fullYear := 2024; monthIndex := 4 |} H H eq_refl).
Defined.

Lemma getCurrentMonth_two_digit_month_witness :
  (monthIndex may_2024 < 12)%nat
  ∧ getCurrentMonth may_2024 = "2024-05".
Proof.
  assert (monthIndex may_2024 < 12)%nat as H by (vm_compute; lia).
  split; [exact H|]. exact (getCurrentMonth_two_digit_month may_2024 H).
Defined.

Lemma counter_counts_scrapes_witness :
  let scrapes := [ ("https://a.example/", "text"); ("https://b.example/", "text");
                   ("https://a.example/", "toString"); ("https://a.example/", "text") ] in
  Forall (λ s, Js.inherited s.1 = false) scrapes
  ∧ ∃ st', log_all may_2024 scrapes ∅ = Some st'
      ∧ count st' "2024-05" "https://a.example/" "text" = Some (Js.Num 2).
Proof.
  intros scrapes.
  assert (Forall (λ s, Js.inherited s.1 = false) scrapes) as H by (by repeat constructor).
  split; [exact H|].
  assert (- 2 ^ 53 ≤ base (count ∅ (getCurrentMonth may_2024) "https://a.example/" "text"))%Z
    as Hlo by (by vm_compute).
  assert (base (count ∅ (getCurrentMonth may_2024) "https://a.example/" "text")
          + Z.of_nat (occurrences ("https://a.example/", "text") scrapes) ≤ 2 ^ 53)%Z
    as Hhi by (by vm_compute).
  destruct (counter_counts_scrapes may_2024 "https://a.example/" "text" scrapes ∅ H
              eq_refl eq_refl Hlo Hhi) as (st' & Hlog & Hcount).
  exists st'. split; [exact Hlog|]. etrans; [exact Hcount|]. vm_compute. reflexivity.
Defined.

Lemma logScrape_touches_one_triple_witness :
  (getCurrentMonth may_2024, "https://a.example/", "toString")
    ≠ ("2024-05", "https://a.example/", "text")
  ∧ count (stats_of (logScrape_sync may_2024 "https://a.example/" "toString" ∅))
      "2024-05" "https://a.example/" "text" =
    count ∅ "2024-05" "https://a.example/" "text".
Proof.
  assert ((getCurrentMonth may_2024, "https://a.example/", "toString")
          ≠ ("2024-05", "https://a.example/", "text")) as H by (vm_compute; discriminate).
  split; [exact H|]. exact (logScrape_touches_one_triple _ _ _ _ _ _ ∅ H).
Defined.

Lemma unauthorised_scrape_is_rejected_witness :
  let o := sample_oracle sample_html sample_meta (Ok tt) in
  target anonymous_request ≠ "/" ∧ x_api_key anonymous_request ≠ Some "secret"
  ∧ events_of o (post_scrape sample_parse id "secret" anonymous_request) empty_world =
      [ EvReply {| status := 401; payload := ErrorBody "Unauthorized: Invalid API key" |} ]
  ∧ scrapeStats (run o (post_scrape sample_parse id "secret" anonymous_request)
                   empty_world).2 = scrapeStats empty_world.
Proof.
  intros o.
  assert (target anonymous_request ≠ "/") as H1 by discriminate.
  assert (x_api_key anonymous_request ≠ Some "secret") as H2 by discriminate.
  split; [exact H1|]. split; [exact H2|].
  exact (unauthorised_scrape_is_rejected sample_parse id "secret" anonymous_request o
           empty_world H1 H2).
Defined.


Lemma failed_scrape_is_not_counted_witness :
  let o := sample_oracle sample_html sample_meta (Ok tt) in
  let body := Some {| url := Some "toString"; mode := Some "length" |} in
  let evs := events_of o (scrape sample_parse id body) empty_world in
  let w' := (run o (scrape sample_parse id body) empty_world).2 in
  pristine empty_world = true
  ∧ replies evs = [generic_failure]
  ∧ existsb failed_write evs = false
  ∧ scrapeStats w' = {[ "2024-05" := ∅ ]}
  ∧ (∀ month url mode,
       count (scrapeStats w') month url mode =
         count (scrapeStats empty_world) month url mode)
  ∧ pristine w' = true
  ∧ (scrapeStats w' = scrapeStats empty_world
     ∨ ∃ date, scrapeStats empty_world !! getCurrentMonth date = None
               ∧ scrapeStats w' = <[getCurrentMonth date := ∅]> (scrapeStats empty_world)).
Proof.
  intros o body evs w'.
  assert (replies evs = [generic_failure]) as H1 by (vm_compute; reflexivity).
  assert (existsb failed_write evs = false) as H2 by (vm_compute; reflexivity).
  split; [reflexivity|]. split; [exact H1|]. split; [exact H2|].
  split; [vm_compute; reflexivity|].
  exact (failed_scrape_is_not_counted sample_parse id o body empty_world eq_refl H1 H2).
Defined.

Lemma reply_content_is_extractor_result_witness :
  let o := sample_oracle sample_html sample_meta (Ok tt) in
  let body := Some (sample_request (Some "source")) in
  let evs := events_of o (scrape sample_parse id body) empty_world in
  replies evs = [ {| status := 200; payload := ContentBody sample_html |} ]
  ∧ ∃ request b p wg,
      body = Some request
      ∧ trace wg = (trace empty_world ++
                    [ EvCall GetBrowser (Ok b); EvCall (NewPage b) (Ok p);
                      EvCall (Goto p (default "" (url request))) (Ok tt) ])%list
      ∧ scrapeStats wg = scrapeStats empty_world
      ∧ (run o (dispatch sample_parse id (mode request) p) wg).1 = Ok sample_html.
Proof.
  intros o body evs.
  assert (replies evs = [ {| status := 200; payload := ContentBody sample_html |} ])
    as H by (vm_compute; reflexivity).
  split; [exact H|].
  exact (reply_content_is_extractor_result sample_parse id o body empty_world
           sample_html H).
Defined.

Lemma extractEnhancedArticle_no_article_witness :
  let o := sample_oracle "" [] (Ok tt) in
  sample_parse "" = None
  ∧ (run o (extractEnhancedArticle sample_parse 7) empty_world).1 = Ok ""
  ∧ events_of o (extractEnhancedArticle sample_parse 7) empty_world =
      [ EvCall (Content 7) (Ok "") ].
Proof.
  intros o. split; [reflexivity|].
  apply (extractEnhancedArticle_no_article sample_parse o 7 empty_world "");
    reflexivity.
Defined.

Lemma content_error_propagates_witness :
  let o := flaky_oracle (Ok tt) (Throw "Target closed") (Ok sample_html) in
  run o (dispatch sample_parse id (Some "article") 7) empty_world =
    (Throw "Target closed",
     record_event (EvCall (Content 7) (Throw "Target closed")) empty_world).
Proof.
  intros o.
  apply (content_error_propagates sample_parse id o (Some "article") 7 empty_world
           "Target closed"); [discriminate|discriminate|reflexivity].
Defined.

Lemma getPrintVersion_restores_screen_witness :
  let o := sample_oracle sample_html [] (Ok tt) in
  (run o (getPrintVersion 7) empty_world).1 = Ok sample_html
  ∧ events_of o (getPrintVersion 7) empty_world =
      [ EvCall (AddPrintStyle 7) (Ok tt);
        EvCall (EmulateMediaType 7 "print") (Ok tt);
        EvCall (OuterHTML 7) (Ok sample_html);
        EvCall (EmulateMediaType 7 "screen") (Ok tt) ].
Proof.
  intros o.
  assert ((run o (getPrintVersion 7) empty_world).1 = Ok sample_html) as H
    by (vm_compute; reflexivity).
  split; [exact H|].
  exact (getPrintVersion_restores_screen o 7 empty_world sample_html H).
Defined.

Lemma getPrintVersion_leaves_print_on_failure_witness :
  let o := flaky_oracle (Ok tt) (Ok sample_html) (Throw "Execution context was destroyed") in
  let evs := events_of o (getPrintVersion 7) empty_world in
  existsb failed_capture evs = true
  ∧ existsb restores_screen evs = false
  ∧ ∃ e, (run o (getPrintVersion 7) empty_world).1 = Throw e.
Proof.
  intros o evs.
  assert (existsb failed_capture evs = true) as H by (vm_compute; reflexivity).
  split; [exact H|].
  exact (getPrintVersion_leaves_print_on_failure o 7 empty_world H).
Defined.


Lemma scrape_without_url_witness :
  let o := sample_oracle sample_html sample_meta (Ok tt) in
  let request := {| url := Some ""; mode := Some "screenshot" |} in
  truthy_ostr (url request) = false
  ∧ run o (scrape sample_parse id (Some request)) empty_world =
      (Ok tt, record_event
                (EvReply {| status := 400; payload := ErrorBody "URL is required" |})
                empty_world).
Proof.
  intros o request. split; [reflexivity|].
  exact (scrape_without_url sample_parse id o request empty_world eq_refl).
Defined.

Lemma logScrape_throws_only_on_builtin_witness :
  logScrape_sync may_2024 "hasOwnProperty" "name" ∅ = Raised {[ "2024-05" := ∅ ]}
  ∧ Js.inherited "hasOwnProperty" = true
  ∧ "hasOwnProperty" ≠ "__proto__"
  ∧ default ∅ ((∅ : ScrapeStats) !! getCurrentMonth may_2024) !! "hasOwnProperty" = None
  ∧ "name" ∈ ["length"; "name"; "caller"; "arguments"; "prototype"]
  ∧ ∀ month u k,
      count {[ "2024-05" := ∅ ]} month u k = count (∅ : ScrapeStats) month u k.
Proof.
  assert (logScrape_sync may_2024 "hasOwnProperty" "name" ∅ = Raised {[ "2024-05" := ∅ ]})
    as H by (vm_compute; reflexivity).
  split; [exact H|].
  exact (logScrape_throws_only_on_builtin may_2024 "hasOwnProperty" "name" ∅ _ H).
Defined.
